(** * DistributedEventLab: the ingest service and the load generator

    A shallow embedding of [server/main.py] (the [/events] endpoint, its
    bounded queue and its consumers) and of [generator/main.py] (the
    rate-limited worker loop and [run]), with the properties of the design
    document proved or refuted on it. *)

From Stdlib Require Import ZArith Bool List.
From Stdlib Require Import Floats.SpecFloat.
From stdpp Require Import gmap strings list fin_maps pretty.

Set Warnings "-register-all".
Local Open Scope Z_scope.

(** ** JSON values

    What [request.json()] and [json.loads] produce.  The code never looks
    inside a number, so a numeric literal is kept as an integer. *)

Inductive json : Type :=
| JNull
| JBool (b : bool)
| JNum (n : Z)
| JStr (s : string)
| JArr (xs : list json)
| JObj (kvs : list (string * json)).

(** ** The ingest service, [server/main.py] *)

Module Server.

(** A Python [dict] is a mutable object: the body holds references to the
    dicts, the queue holds the same references, and [setdefault] updates the
    dict behind a reference.  The store maps a reference to the dict's
    current content. *)
Definition loc := positive.

(** An element of a decoded JSON array, as the handler's loop sees it. *)
Inductive pyobj : Type :=
| PDict (l : loc)          (* a dict, by reference *)
| PAtom (v : json).        (* None, bool, number, str or list: no [setdefault] *)

(** The decoded body, by its runtime type. *)
Inductive pybody : Type :=
| BDict (l : loc)                (* isinstance(body, dict) *)
| BList (items : list pyobj)     (* isinstance(body, list) *)
| BOther (v : json).             (* None, bool, number or str *)

(** [dict.setdefault(k, d)]: insert [d] under [k] unless [k] is present. *)
Definition setdefault (k : string) (d : json) (m : gmap string json) : gmap string json :=
  match m !! k with
  | Some _ => m
  | None => <[k := d]> m
  end.

(** Lines 51-52: the two defaults of the loop body, [t] being [now_z()]. *)
Definition default_metadata (t : string) (m : gmap string json) : gmap string json :=
  setdefault "_source" (JStr "events-generator")
    (setdefault "_recieved_at" (JStr t) m).

(** *** The bounded queue

    Modelled from the spec: the queue class, Python's [asyncio.Queue], is not
    among the sources of the repository.  Section 4.3 gives it a fixed
    capacity, first-in first-out order, a [put] that does not wait and fails
    when the queue is at capacity, a [get] that waits for an item, and a
    count of pending completions that a [put] increments and a completion
    mark decrements.  The library reads a capacity of zero or less as no
    bound at all; that case is kept as the library has it. *)
Record Queue : Type := mkQueue {
  maxsize : Z;
  items : list loc;            (* the deque, oldest first *)
  unfinished_tasks : Z
}.

(** Modelled from the spec: the number of items in the queue. *)
Definition qsize (q : Queue) : Z := Z.of_nat (length (items q)).

(** Modelled from the spec: the queue is at capacity (never, when it has no
    bound). *)
Definition full (q : Queue) : bool :=
  if maxsize q <=? 0 then false else maxsize q <=? qsize q.

(** Modelled from the spec: [put] does not wait and fails at once when the
    queue is at capacity, else appends the item and counts one more pending
    completion.  [None] is the [QueueFull] exception. *)
Definition put_nowait (item : loc) (q : Queue) : option Queue :=
  if full q then None
  else Some {| maxsize := maxsize q;
               items := items q ++ [item];
               unfinished_tasks := unfinished_tasks q + 1 |}.

(** Modelled from the spec: [get] removes the oldest item, waiting for one
    while the queue is empty.  [None] is a getter that stays suspended. *)
Definition get (q : Queue) : option (loc * Queue) :=
  match items q with
  | [] => None
  | x :: rest => Some (x, {| maxsize := maxsize q;
                             items := rest;
                             unfinished_tasks := unfinished_tasks q |})
  end.

(** Modelled from the spec: the completion mark takes one from the count of
    pending completions.  [None] is the [ValueError] of a mark without a
    pending item. *)
Definition task_done (q : Queue) : option Queue :=
  if unfinished_tasks q <=? 0 then None
  else Some {| maxsize := maxsize q;
               items := items q;
               unfinished_tasks := unfinished_tasks q - 1 |}.

(** Line 18. *)
Definition EVENT_QUEUE : Queue :=
  {| maxsize := 10000; items := []; unfinished_tasks := 0 |}.

(** *** The state of the service *)

Record World : Type := mkWorld {
  heap : gmap loc (gmap string json);   (* the dicts that are alive *)
  queue : Queue;                        (* the module's EVENT_QUEUE *)
  ticks : nat                           (* calls of [now_z] so far *)
}.

Record IngestResponse : Type := mkResponse {
  accepted : Z;
  queued_size : Z;
  timestamp : string
}.

(** How a call of the handler ends. *)
Inductive outcome : Type :=
| Return (r : IngestResponse)
| HTTPException (status_code : Z) (detail : string)
| AttributeError.     (* [event.setdefault] on an object that is not a dict *)

(** The status the framework answers with: 200 for a returned model, the
    exception's own code for an [HTTPException], 500 for any other
    exception. *)
Definition http_status (o : outcome) : Z :=
  match o with
  | Return _ => 200
  | HTTPException c _ => c
  | AttributeError => 500
  end.

(** What [await request.json()] gives: the decoded body, or the exception
    text of a body that is not JSON. *)
Inductive request : Type :=
| Malformed (e : string)
| Decoded (body : pybody).

Section Handler.

(** [now_z()] reads the wall clock; [clock k] is the text of the reading
    number [k]. *)
Variable clock : nat -> string.

Definition now_z (w : World) : string * World :=
  (clock (ticks w), {| heap := heap w; queue := queue w; ticks := S (ticks w) |}).

(** How the [for] loop of lines 49-58 ends. *)
Inductive loop_end : Type :=
| Done (accepted : Z)
| Raised.                  (* AttributeError *)

(** Lines 49-58.  The callee [event.setdefault] is looked up before
    [now_z()] is evaluated, so an element without that method raises
    before the clock is read. *)
Fixpoint ingest_loop (events : list pyobj) (acc : Z) (w : World) : loop_end * World :=
  match events with
  | [] => (Done acc, w)
  | PAtom _ :: _ => (Raised, w)
  | PDict l :: rest =>
      let '(t, w1) := now_z w in
      let h := alter (default_metadata t) l (heap w1) in
      match put_nowait l (queue w1) with
      | Some q' =>
          ingest_loop rest (acc + 1) {| heap := h; queue := q'; ticks := ticks w1 |}
      | None =>
          (Done acc, {| heap := h; queue := queue w1; ticks := ticks w1 |})
      end
  end.

(** Lines 33-63. *)
Definition ingest_events (req : request) (w : World) : outcome * World :=
  match req with
  | Malformed e => (HTTPException 400 ("Invalid JSON: " +:+ e), w)
  | Decoded body =>
      let events :=
        match body with
        | BDict l => Some [PDict l]
        | BList xs => Some xs
        | BOther _ => None
        end in
      match events with
      | None =>
          (HTTPException 400 "Body must be a JSON object or array pf objects", w)
      | Some evs =>
          match ingest_loop evs 0 w with
          | (Raised, w1) => (AttributeError, w1)
          | (Done acc, w1) =>
              let '(t, w2) := now_z w1 in
              (Return {| accepted := acc;
                         queued_size := qsize (queue w2);
                         timestamp := t |}, w2)
          end
      end
  end.

(** What the request's body is once decoded: every JSON object of the top
    level or of a top-level array becomes a new dict at a reference that was
    not in use (with the last of several values of a repeated key), in the
    order of the text. *)
Definition dict_of_pairs (kvs : list (string * json)) : gmap string json :=
  fold_left (fun m kv => <[kv.1 := kv.2]> m) kvs ∅.

Definition alloc (m : gmap string json) (h : gmap loc (gmap string json))
  : loc * gmap loc (gmap string json) :=
  let l := fresh (dom h) in (l, <[l := m]> h).

Fixpoint decode_items (xs : list json) (h : gmap loc (gmap string json))
  : list pyobj * gmap loc (gmap string json) :=
  match xs with
  | [] => ([], h)
  | JObj kvs :: rest =>
      let '(l, h1) := alloc (dict_of_pairs kvs) h in
      let '(os, h2) := decode_items rest h1 in
      (PDict l :: os, h2)
  | v :: rest =>
      let '(os, h1) := decode_items rest h in
      (PAtom v :: os, h1)
  end.

Definition decode (j : json) (h : gmap loc (gmap string json))
  : pybody * gmap loc (gmap string json) :=
  match j with
  | JObj kvs => let '(l, h1) := alloc (dict_of_pairs kvs) h in (BDict l, h1)
  | JArr xs => let '(os, h1) := decode_items xs h in (BList os, h1)
  | v => (BOther v, h)
  end.

(** A [POST /events] with the text of a JSON value as its body. *)
Definition post_events (j : json) (w : World) : outcome * World :=
  let '(body, h) := decode j (heap w) in
  ingest_events (Decoded body) {| heap := h; queue := queue w; ticks := ticks w |}.

(** Lines 67-72, a consumer.  Other tasks run while it sleeps between
    [get] and [task_done], so its turn is two steps: line 69, taking the
    oldest event ([None] while it stays suspended in [get]), and line 72,
    marking it done. *)
Definition consumer_get (w : World) : option (loc * World) :=
  match get (queue w) with
  | None => None
  | Some (event, q1) => Some (event, {| heap := heap w; queue := q1; ticks := ticks w |})
  end.

Definition consumer_done (w : World) : option World :=
  match task_done (queue w) with
  | None => None
  | Some q2 => Some {| heap := heap w; queue := q2; ticks := ticks w |}
  end.

(** The service as a whole: requests arrive and consumers take their
    steps, in any order; a step of a suspended consumer changes nothing, and
    neither does a step that raises. *)
Inductive service_op : Type :=
| Post (req : request)
| ConsumerGet
| ConsumerDone.

Definition service_step (op : service_op) (w : World) : World :=
  match op with
  | Post req => snd (ingest_events req w)
  | ConsumerGet => match consumer_get w with Some (_, w') => w' | None => w end
  | ConsumerDone => match consumer_done w with Some w' => w' | None => w end
  end.

(** The answers to a sequence of posted bodies, one after the other. *)
Fixpoint answers (bodies : list json) (w : World) : list outcome :=
  match bodies with
  | [] => []
  | j :: rest =>
      let '(o, w') := post_events j w in o :: answers rest w'
  end.

Fixpoint service_trace (ops : list service_op) (w : World) : list World :=
  match ops with
  | [] => []
  | op :: rest => let w' := service_step op w in w' :: service_trace rest w'
  end.

(** The heap after the loop body has put the defaults into the dicts [ls],
    one after the other, the first at clock reading [t0]. *)
Fixpoint stamp (t0 : nat) (ls : list loc) (h : gmap loc (gmap string json))
  : gmap loc (gmap string json) :=
  match ls with
  | [] => h
  | l :: rest => stamp (S t0) rest (alter (default_metadata (clock t0)) l h)
  end.

End Handler.

(** The operations on the queue alone; a [put] that fails and a [get] that
    has to wait leave the queue as it is. *)
Inductive queue_op : Type :=
| Put (item : loc)
| Get.

Definition run_op (op : queue_op) (q : Queue) : Queue :=
  match op with
  | Put x => match put_nowait x q with Some q' => q' | None => q end
  | Get => match get q with Some (_, q') => q' | None => q end
  end.

Fixpoint queue_trace (ops : list queue_op) (q : Queue) : list Queue :=
  match ops with
  | [] => []
  | op :: rest => let q' := run_op op q in q' :: queue_trace rest q'
  end.

(** The events of a body of the right shape: a single object, or an array
    whose elements are all objects. *)
Fixpoint dicts_of (xs : list pyobj) : option (list loc) :=
  match xs with
  | [] => Some []
  | PDict l :: rest => option_map (cons l) (dicts_of rest)
  | PAtom _ :: _ => None
  end.

Definition events_of (body : pybody) : option (list loc) :=
  match body with
  | BDict l => Some [l]
  | BList xs => dicts_of xs
  | BOther _ => None
  end.

(** The dicts an array refers to, and the state of the service when it
    starts. *)
Fixpoint locs_of (xs : list pyobj) : list loc :=
  match xs with
  | [] => []
  | PDict l :: rest => l :: locs_of rest
  | PAtom _ :: rest => locs_of rest
  end.

Definition initial : World :=
  {| heap := ∅; queue := EVENT_QUEUE; ticks := 0 |}.

(** The [accepted] of an answer, if the handler returned one. *)
Definition accepted_of (o : outcome) : option Z :=
  match o with
  | Return r => Some (accepted r)
  | _ => None
  end.

(** The [accepted] and the [queued_size] of an answer. *)
Definition counts_of (o : outcome) : option (Z * Z) :=
  match o with
  | Return r => Some (accepted r, queued_size r)
  | _ => None
  end.

(** The size of a queue of capacity [cap] is within its bounds. *)
Definition within (cap : Z) (q : Queue) : Prop :=
  0 <= qsize q <= cap /\ maxsize q = cap.

(** Worlds and a clock to try the handler on: an empty queue of capacity 2;
    and a queue of capacity 2 that holds one event, with three dicts that
    are not in it. *)
Definition clock_text (k : nat) : string := "T" +:+ pretty k.

Definition capacity_two : World :=
  {| heap := ∅;
     queue := {| maxsize := 2; items := []; unfinished_tasks := 0 |};
     ticks := 0 |}.

Definition one_slot_left : World :=
  {| heap := {[ 1%positive := ∅;
                2%positive := {[ "n" := JNum 2 ]};
                3%positive := {[ "_source" := JStr "caller" ]};
                4%positive := ∅ ]};
     queue := {| maxsize := 2; items := [1%positive]; unfinished_tasks := 1 |};
     ticks := 0 |}.

(** How many of [n] further items the queue has room for. *)
Definition room (q : Queue) (n : nat) : nat :=
  if maxsize q <=? 0 then n
  else Nat.min n (Z.to_nat (maxsize q - qsize q)).

(** The queue with [ls] appended by as many [put_nowait] that succeeded. *)
Definition enqueued (ls : list loc) (q : Queue) : Queue :=
  {| maxsize := maxsize q;
     items := items q ++ ls;
     unfinished_tasks := unfinished_tasks q + Z.of_nat (length ls) |}.

(** *** The consumers and the service with its pool, lines 66-89

    A consumer is either suspended in [get] (line 69) or asleep with the
    event it took (line 71), on its way to [task_done]; [task_done] raising
    would end it.  The scheduler runs the handler and the consumers in some
    order; a step below is never larger than what runs without a suspension,
    so every schedule of the service is a sequence of these steps. *)
Inductive consumer_state : Type :=
| Waiting
| Holding (event : loc)
| Crashed.

(** The service while it runs: the world, the consumers, and for the record
    the events that entered the queue and those that the consumers took, in
    order. *)
Record Service : Type := mkService {
  world : World;
  pool : list consumer_state;
  arrived : list loc;
  taken : list loc
}.

(** Line 78: [lifespan] starts four consumers. *)
Definition started (w : World) : Service :=
  {| world := w; pool := replicate 4 Waiting; arrived := []; taken := [] |}.

Inductive step : Type :=
| Request (j : json)       (* a [POST /events] with body [j] *)
| Turn (i : nat).          (* consumer [i] runs to its next suspension *)

Section Running.

Variable clock : nat -> string.

(** The events a request appended to the queue. *)
Definition appended (before after : World) : list loc :=
  drop (length (items (queue before))) (items (queue after)).

Definition service_do (st : step) (s : Service) : Service :=
  match st with
  | Request j =>
      let w' := snd (post_events clock j (world s)) in
      {| world := w'; pool := pool s;
         arrived := arrived s ++ appended (world s) w'; taken := taken s |}
  | Turn i =>
      match pool s !! i with
      | Some Waiting =>
          match consumer_get (world s) with
          | Some (event, w') =>
              {| world := w'; pool := <[i := Holding event]> (pool s);
                 arrived := arrived s; taken := taken s ++ [event] |}
          | None => s
          end
      | Some (Holding _) =>
          match consumer_done (world s) with
          | Some w' =>
              {| world := w'; pool := <[i := Waiting]> (pool s);
                 arrived := arrived s; taken := taken s |}
          | None =>
              {| world := world s; pool := <[i := Crashed]> (pool s);
                 arrived := arrived s; taken := taken s |}
          end
      | _ => s
      end
  end.

Definition service_run (sts : list step) (s : Service) : Service :=
  fold_left (fun s st => service_do st s) sts s.

End Running.

(** The events the consumers hold, and whether a dict carries both
    metadata keys. *)
Fixpoint held (p : list consumer_state) : list loc :=
  match p with
  | [] => []
  | Holding event :: rest => event :: held rest
  | _ :: rest => held rest
  end.

Definition tagged (h : gmap loc (gmap string json)) (l : loc) : Prop :=
  exists m, h !! l = Some m /\
            is_Some (m !! "_recieved_at") /\ is_Some (m !! "_source").

(** The number of elements of a body that the loop can come to. *)
Definition body_length (body : pybody) : Z :=
  match body with
  | BDict _ => 1
  | BList xs => Z.of_nat (length xs)
  | BOther _ => 0
  end.

(** The elements of a body that the loop goes through (lines 41-44). *)
Definition elements_of (body : pybody) : list pyobj :=
  match body with
  | BDict l => [PDict l]
  | BList xs => xs
  | BOther _ => []
  end.

(** What a consumer adds to the number of events that are held. *)
Definition weight (c : consumer_state) : Z :=
  match c with Holding _ => 1 | _ => 0 end.

(** A world whose one dict came with both metadata keys. *)
Definition with_caller_metadata : World :=
  {| heap := {[ 1%positive := {[ "_recieved_at" := JStr "then";
                                 "_source" := JStr "caller" ]} ]};
     queue := EVENT_QUEUE; ticks := 0 |}.

(** A world whose queue of capacity 1 is full, with a dict that came with
    both metadata keys and is not in it. *)
Definition no_slot_left : World :=
  {| heap := {[ 1%positive := {[ "_recieved_at" := JStr "then";
                                 "_source" := JStr "caller" ]};
                2%positive := ∅ ]};
     queue := {| maxsize := 1; items := [2%positive]; unfinished_tasks := 1 |};
     ticks := 0 |}.

End Server.

(** ** The load generator, [generator/main.py] *)

Module Generator.

(** *** Python floats

    A Python [float] is an IEEE 754 binary64 number; the operations are those
    of the Standard Library's executable specification of binary64, with the
    exceptions Python adds to them. *)
Definition prec : Z := 53.
Definition emax : Z := 1024.

Abbreviation float := spec_float.

Definition fzero : float := S754_zero false.               (* 0.0 *)
Definition fone : float := SFone prec emax.                (* 1.0 *)
Definition finf : float := S754_infinity false.            (* float("inf") *)
Definition f1000 : float := binary_normalize prec emax 1000 0 false.   (* 1000.0 *)

Definition flt (x y : float) : bool := SFltb x y.          (* x < y *)
Definition fadd (x y : float) : float := SFadd prec emax x y.

Definition is_zero (x : float) : bool :=
  match x with S754_zero _ => true | _ => false end.

Definition is_finite (x : float) : bool :=
  match x with S754_zero _ | S754_finite _ _ _ => true | _ => false end.

Inductive exn : Type :=
| PayloadError (msg : string)    (* what [load_payload] raises *)
| OverflowError                  (* int too large to convert to float *)
| ZeroDivisionError.

Inductive pyresult (A : Type) : Type :=
| Ok (a : A)
| Raise (e : exn).
Arguments Ok {A} a.
Arguments Raise {A} e.

(** [float(n)] for an int [n], rounding to nearest even. *)
Definition float_of_int (n : Z) : pyresult float :=
  match binary_normalize prec emax n 0 false with
  | S754_infinity _ => Raise OverflowError
  | c => Ok c
  end.

(** [x / y] on floats. *)
Definition truediv (x y : float) : pyresult float :=
  if is_zero y then Raise ZeroDivisionError else Ok (SFdiv prec emax x y).

(** The builtin [max(a, b)]: [b] if [b > a], else [a]. *)
Definition pymax (a b : float) : float := if flt a b then b else a.

(** *** The world of a worker

    What a worker has done so far: how often it read the clock, called the
    payload provider and drew a random number, the requests it posted, the
    lines it printed and the sleeps it asked for, oldest first. *)
Record Env : Type := mkEnv {
  reads : nat;
  loads : nat;
  draws : nat;
  posts : list json;
  printed : list string;
  sleeps : list float
}.

(** A computation that reads and extends the world and may raise. *)
Definition M (A : Type) : Type := Env -> pyresult A * Env.

Definition ret {A : Type} (a : A) : M A := fun env => (Ok a, env).

Definition bind {A B : Type} (m : M A) (k : A -> M B) : M B :=
  fun env =>
    match m env with
    | (Ok a, env') => k a env'
    | (Raise e, env') => (Raise e, env')
    end.

Definition lift {A : Type} (r : pyresult A) : M A := fun env => (r, env).

Notation "'let*' x ':=' m 'in' k" := (bind m (fun x => k))
  (at level 10, x name, m at level 100, k at level 200, only parsing).

(** The arguments of [worker], lines 71-72. *)
Record Args : Type := mkArgs {
  name : string;
  url : string;
  rps : float;
  duration : float;
  payload_src : option string;
  batch : Z;
  jitter_ms : Z
}.

(** How far a worker has come after a number of turns of its loop. *)
Inductive status : Type :=
| Running (sent : Z)       (* about to test the loop condition again *)
| Returned (sent : Z).     (* line 101 *)

(** The marks the calls leave in the world. *)
Definition read_clock (env : Env) : Env :=
  {| reads := S (reads env); loads := loads env; draws := draws env;
     posts := posts env; printed := printed env; sleeps := sleeps env |}.

Definition loaded (env : Env) : Env :=
  {| reads := reads env; loads := S (loads env); draws := draws env;
     posts := posts env; printed := printed env; sleeps := sleeps env |}.

Definition drawn (env : Env) : Env :=
  {| reads := reads env; loads := loads env; draws := S (draws env);
     posts := posts env; printed := printed env; sleeps := sleeps env |}.

Definition posted (data : json) (env : Env) : Env :=
  {| reads := reads env; loads := loads env; draws := draws env;
     posts := posts env ++ [data]; printed := printed env; sleeps := sleeps env |}.

Definition logged (line : string) (env : Env) : Env :=
  {| reads := reads env; loads := loads env; draws := draws env;
     posts := posts env; printed := printed env ++ [line]; sleeps := sleeps env |}.

Definition slept (d : float) (env : Env) : Env :=
  {| reads := reads env; loads := loads env; draws := draws env;
     posts := posts env; printed := printed env; sleeps := sleeps env ++ [d] |}.

Section Worker.

(** The collaborators, each answering its call number [k]:
    [time.monotonic()]; [load_payload(source)] of lines 16-68, whose answer
    comes from files, templates, the clock and a fake-data generator and is
    a payload or an exception; [client.post] followed by [resp.json()], with
    [Some e] for the exception [e] either of them raises; and
    [random.randint(a, b)].  They are parameters: what is proved holds
    whatever they answer. *)
Variable monotonic : nat -> float.
Variable load_payload : option string -> nat -> pyresult json.
Variable transport : nat -> string -> json -> option string.
Variable randint : nat -> Z -> Z -> Z.

Definition time_monotonic : M float := fun env =>
  (Ok (monotonic (reads env)), read_clock env).

Definition call_load_payload (src : option string) : M json := fun env =>
  (load_payload src (loads env), loaded env).

Definition random_randint (a b : Z) : M Z := fun env =>
  (Ok (randint (draws env) a b), drawn env).

Definition print (line : string) : M unit := fun env => (Ok tt, logged line env).

Definition asyncio_sleep (d : float) : M unit := fun env => (Ok tt, slept d env).

(** Lines 83-87: the request is posted once; an exception of the post or of
    the decoding of the answer is printed and goes no further. *)
Definition send (a : Args) (data : json) : M unit := fun env =>
  match transport (length (posts env)) (url a) data with
  | None => (Ok tt, posted data env)
  | Some e => print ("[" +:+ name a +:+ "] error: " +:+ e) (posted data env)
  end.

(** Line 81: [[load_payload(payload_src) for _ in range(batch)]]. *)
Fixpoint load_many (src : option string) (n : nat) : M (list json) :=
  match n with
  | O => ret []
  | S n' =>
      let* x := call_load_payload src in
      let* xs := load_many src n' in
      ret (x :: xs)
  end.

(** Lines 78-81. *)
Definition build_data (a : Args) : M json :=
  let* body := call_load_payload (payload_src a) in
  (if 1 <? batch a
   then let* xs := load_many (payload_src a) (Z.to_nat (batch a)) in ret (JArr xs)
   else ret body).

(** Lines 91-99; the [0] of [sleep(0)] is kept as the float zero. *)
Definition pace (a : Args) (interval : float) : M unit :=
  if flt fzero interval
  then
    let* j := (if 0 <? jitter_ms a
               then let* r := random_randint 0 (jitter_ms a) in
                    let* rf := lift (float_of_int r) in
                    lift (truediv rf f1000)
               else ret fzero) in
    asyncio_sleep (pymax fzero (fadd interval j))
  else asyncio_sleep fzero.

(** Lines 78-99, one turn of the loop, from the count before it to the count
    after it. *)
Definition iteration (a : Args) (interval : float) (sent : Z) : M Z :=
  let* data := build_data a in
  let* _ := send a data in
  let sent := sent + batch a in
  let* _ := pace a interval in
  ret sent.

(** Line 73; the [0] of the [else] is kept as the float zero. *)
Definition interval_of (rps : float) : pyresult float :=
  if flt fzero rps then truediv fone rps else Ok fzero.

(** Line 74: the clock is read only when [duration > 0]. *)
Definition end_time (duration : float) : M float :=
  if flt fzero duration
  then let* t := time_monotonic in ret (fadd t duration)
  else ret finf.

(** Lines 77-101, at most [fuel] turns of the [while] loop. *)
Fixpoint worker_loop (fuel : nat) (a : Args) (interval end_t : float) (sent : Z)
  : M status :=
  match fuel with
  | O => ret (Running sent)
  | S fuel' =>
      let* t := time_monotonic in
      (if flt t end_t
       then let* sent' := iteration a interval sent in
            worker_loop fuel' a interval end_t sent'
       else ret (Returned sent))
  end.

(** Lines 71-101. *)
Definition worker (fuel : nat) (a : Args) : M status :=
  let* interval := lift (interval_of (rps a)) in
  let* end_t := end_time (duration a) in
  worker_loop fuel a interval end_t 0.

End Worker.

(** Line 109: the name [f"w{i}"]. *)
Definition worker_name (i : nat) : string := "w" +:+ pretty i.

(** Line 107: [max(rps / max(concurrency, 1), 0.0)]. *)
Definition per_worker_rps (rps : float) (concurrency : Z) : pyresult float :=
  match float_of_int (Z.max concurrency 1) with
  | Raise e => Raise e
  | Ok c =>
      match truediv rps c with
      | Raise e => Raise e
      | Ok q => Ok (pymax q fzero)
      end
  end.

(** Lines 107-111 of [run]: the arguments of the workers it starts, or the
    exception of the division. *)
Definition run_tasks (url : string) (rps duration : float) (concurrency : Z)
    (payload_src : option string) (batch jitter_ms : Z) : pyresult (list Args) :=
  match per_worker_rps rps concurrency with
  | Raise e => Raise e
  | Ok r =>
      Ok (map (fun i => {| name := worker_name i; url := url;
                           rps := r; duration := duration;
                           payload_src := payload_src; batch := batch;
                           jitter_ms := jitter_ms |})
              (seq 0 (Z.to_nat concurrency)))
  end.

(** A world in which nothing has happened yet, and collaborators to try the
    worker on: a provider whose payload number [k] is the number [k], a clock
    that stands still, a transport that fails every request with a timeout
    and one that answers every request, and a jitter that is always the
    largest allowed. *)
Definition env0 : Env :=
  {| reads := 0; loads := 0; draws := 0; posts := []; printed := []; sleeps := [] |}.

Definition numbered (src : option string) (k : nat) : pyresult json :=
  Ok (JNum (Z.of_nat k)).

Definition still (k : nat) : float := fzero.

Definition timing_out (k : nat) (url : string) (data : json) : option string :=
  Some "timed out".

Definition answering (k : nat) (url : string) (data : json) : option string :=
  None.

Definition upper (k : nat) (a b : Z) : Z := b.

Definition args_of (b : Z) (d : float) : Args :=
  {| name := "w0"; url := "http://localhost:8000/events"; rps := fone;
     duration := d; payload_src := None; batch := b; jitter_ms := 50 |}.

(** Two more collaborators to try the worker on: a clock that advances by
    one second at every reading, and a provider whose source is missing. *)
Definition ticking (k : nat) : float :=
  match float_of_int (Z.of_nat k) with Ok f => f | Raise _ => fzero end.

Definition missing (src : option string) (k : nat) : pyresult json :=
  Raise (PayloadError "not found").

End Generator.

(** ** The payload provider, [load_payload] of [generator/main.py] *)

Module Payload.
Import Generator.

(** What the function calls outside the repository: [json.loads] ([None]
    when it raises), the paths of [pathlib] with their [exists] ([None]
    when it raises an [OSError], as for a name that is too long or a
    directory that may not be searched), [suffix], [name], [read_text]
    ([None] when it raises) and [str], the directory of
    the script, the rendering of a Jinja2 template with the helpers of
    lines 57-65 ([None] when the template raises), and for the call number
    [k] the fake user id, the fake path and the time in milliseconds. *)
Record Library : Type := mkLibrary {
  path : Type;
  json_loads : string -> option json;
  Path : string -> path;
  beside_script : path -> path;          (* Path(__file__).parent / p *)
  path_name : path -> string;            (* p.name *)
  path_suffix : path -> string;          (* p.suffix *)
  path_str : path -> string;             (* str(p) *)
  path_exists : path -> option bool;     (* p.exists() *)
  read_text : path -> option string;     (* p.read_text(encoding="utf-8") *)
  render : nat -> string -> option string;
  uuid4 : nat -> string;
  uri_path : nat -> string;
  time_ms : nat -> Z
}.

Inductive load_error : Type :=
| FileNotFoundError (msg : string)
| ValueError (msg : string)
| JSONDecodeError        (* [json.loads] of the text of a file or template *)
| OSError                (* [exists] or [read_text] *)
| TemplateError.         (* the template *)

Inductive load_result : Type :=
| Loaded (payload : json)
| Failed (e : load_error).

Section Provider.

Variable L : Library.

(** Lines 24-29. *)
Definition default_payload (k : nat) : json :=
  JObj [("event_type", JStr "page_view");
        ("user_id", JStr (uuid4 L k));
        ("path", JStr (uri_path L k));
        ("ts", JNum (time_ms L k))].

(** Lines 37-42. *)
Definition candidates (source : string) : list (path L) :=
  let p := Path L source in
  [p; beside_script L p; beside_script L (Path L (path_name L p))].

(** Lines 43-49, the [for] with its [else]: the first candidate that
    exists, the [else] when the loop comes to its end, or the exception of
    an [exists] on the way. *)
Inductive search : Type :=
| Found (p : path L)
| Nowhere
| Broken.

Fixpoint first_existing (cands : list (path L)) : search :=
  match cands with
  | [] => Nowhere
  | cand :: rest =>
      match path_exists L cand with
      | None => Broken
      | Some true => Found cand
      | Some false => first_existing rest
      end
  end.

Definition not_found (source : string) : string :=
  "Payload source not found: " +:+ source +:+ " (tried: "
  +:+ String.concat ", " (map (path_str L) (candidates source)) +:+ ")".

(** Lines 51-68. *)
Definition load_file (p : path L) (k : nat) : load_result :=
  if decide (path_suffix L p = ".json") then
    match read_text L p with
    | None => Failed OSError
    | Some text =>
        match json_loads L text with
        | Some j => Loaded j
        | None => Failed JSONDecodeError
        end
    end
  else if decide (path_suffix L p = ".j2") then
    match read_text L p with
    | None => Failed OSError
    | Some text =>
        match render L k text with
        | None => Failed TemplateError
        | Some rendered =>
            match json_loads L rendered with
            | Some j => Loaded j
            | None => Failed JSONDecodeError
            end
        end
    end
  else Failed (ValueError "Unsuppored payload file type. Use .json or .j2").

(** Lines 16-68; [k] is the number of the call. *)
Definition load_payload (source : option string) (k : nat) : load_result :=
  match source with
  | None => Loaded (default_payload k)
  | Some src =>
      if decide (src = "") then Loaded (default_payload k)
      else
        match json_loads L src with
        | Some j => Loaded j
        | None =>
            match first_existing (candidates src) with
            | Broken => Failed OSError
            | Nowhere => Failed (FileNotFoundError (not_found src))
            | Found p => load_file p k
            end
        end
  end.

(** The provider as the worker calls it. *)
Definition error_text (e : load_error) : string :=
  match e with
  | FileNotFoundError msg => msg
  | ValueError msg => msg
  | JSONDecodeError => "JSONDecodeError"
  | OSError => "OSError"
  | TemplateError => "TemplateError"
  end.

Definition provider (source : option string) (k : nat) : pyresult json :=
  match load_payload source k with
  | Loaded j => Ok j
  | Failed e => Raise (PayloadError (error_text e))
  end.

End Provider.

Arguments Found {L} p.
Arguments Nowhere {L}.
Arguments Broken {L}.

(** Libraries to try the provider on: one where no file exists and nothing
    parses, and one where in addition the file [notes.txt] exists beside the
    script. *)
Definition bare : Library :=
  {| path := string;
     json_loads := fun _ => None;
     Path := fun s => s;
     beside_script := fun p => "generator/" +:+ p;
     path_name := fun p => p;
     path_suffix := fun _ => "";
     path_str := fun p => p;
     path_exists := fun _ => Some false;
     read_text := fun _ => None;
     render := fun _ _ => None;
     uuid4 := fun k => "user-" +:+ pretty k;
     uri_path := fun k => "/page/" +:+ pretty k;
     time_ms := fun k => Z.of_nat k |}.

Definition with_notes : Library :=
  {| path := string;
     json_loads := fun _ => None;
     Path := fun s => s;
     beside_script := fun p => "generator/" +:+ p;
     path_name := fun p => p;
     path_suffix := fun _ => ".txt";
     path_str := fun p => p;
     path_exists := fun p => Some (bool_decide (p = "generator/notes.txt"));
     read_text := fun _ => None;
     render := fun _ _ => None;
     uuid4 := fun k => "user-" +:+ pretty k;
     uri_path := fun k => "/page/" +:+ pretty k;
     time_ms := fun k => Z.of_nat k |}.

End Payload.

(** * Properties of the ingest service *)

Module ServerFacts.
Import Server.

(** ** Dicts and the defaults *)

Lemma setdefault_lookup (k : string) (d : json) (m : gmap string json) (k' : string) :
  setdefault k d m !! k' =
  match m !! k' with
  | Some v => Some v
  | None => if decide (k = k') then Some d else None
  end.
Proof.
  unfold setdefault. destruct (m !! k) eqn:E.
  - destruct (m !! k') eqn:E'; [done|]. case_decide; [congruence|done].
  - rewrite lookup_insert. case_decide; subst.
    + by rewrite E.
    + by destruct (m !! k').
Qed.

Lemma default_metadata_lookup (t : string) (m : gmap string json) (k : string) :
  default_metadata t m !! k =
  match m !! k with
  | Some v => Some v
  | None =>
      if decide (k = "_recieved_at") then Some (JStr t)
      else if decide (k = "_source") then Some (JStr "events-generator")
      else None
  end.
Proof.
  unfold default_metadata. rewrite !setdefault_lookup.
  destruct (m !! k); [done|].
  repeat case_decide; subst; try done; congruence.
Qed.

Lemma default_metadata_twice (t t' : string) (m : gmap string json) :
  default_metadata t' (default_metadata t m) = default_metadata t m.
Proof.
  apply map_eq; intros k. rewrite !default_metadata_lookup.
  destruct (m !! k); [done|]. repeat case_decide; done.
Qed.

(** ** The queue *)

Lemma enqueued_nil (q : Queue) : enqueued [] q = q.
Proof.
  destruct q as [m xs u]. unfold enqueued; simpl.
  by rewrite app_nil_r, Z.add_0_r.
Qed.

Lemma enqueued_cons (x : loc) (ls : list loc) (q : Queue) :
  enqueued ls (enqueued [x] q) = enqueued (x :: ls) q.
Proof.
  unfold enqueued; simpl. f_equal.
  - by rewrite <- app_assoc.
  - lia.
Qed.

Lemma qsize_enqueued (ls : list loc) (q : Queue) :
  qsize (enqueued ls q) = qsize q + Z.of_nat (length ls).
Proof. unfold qsize, enqueued; simpl. rewrite length_app. lia. Qed.

Lemma put_nowait_full (x : loc) (q : Queue) :
  full q = true -> put_nowait x q = None.
Proof. unfold put_nowait. by intros ->. Qed.

Lemma put_nowait_not_full (x : loc) (q : Queue) :
  full q = false -> put_nowait x q = Some (enqueued [x] q).
Proof. unfold put_nowait. by intros ->. Qed.

Lemma room_le (q : Queue) (n : nat) : (room q n <= n)%nat.
Proof. unfold room. destruct (maxsize q <=? 0); lia. Qed.

Lemma room_full (q : Queue) (n : nat) : full q = true -> room q n = 0%nat.
Proof.
  unfold full, room. destruct (maxsize q <=? 0) eqn:E; [done|].
  intros H. apply Z.leb_le in H. lia.
Qed.

Lemma room_not_full (x : loc) (q : Queue) (n : nat) :
  full q = false -> room q (S n) = S (room (enqueued [x] q) n).
Proof.
  unfold full, room. rewrite qsize_enqueued. simpl maxsize.
  destruct (maxsize q <=? 0) eqn:E; [done|].
  intros H. apply Z.leb_gt in H. simpl length. lia.
Qed.

Lemma room_lt_full (q : Queue) (n : nat) :
  (room q n < n)%nat -> full (enqueued (replicate (room q n) 1%positive) q) = true.
Proof.
  unfold full, room. rewrite qsize_enqueued, length_replicate. simpl maxsize.
  destruct (maxsize q <=? 0) eqn:E; [lia|].
  intros H. apply Z.leb_le. apply Z.leb_gt in E. lia.
Qed.

(** Fullness depends on the length of the queue only. *)
Lemma full_enqueued_length (ls ls' : list loc) (q : Queue) :
  length ls = length ls' -> full (enqueued ls q) = full (enqueued ls' q).
Proof. intros H. unfold full. rewrite !qsize_enqueued, H. done. Qed.

Lemma room_prefix_not_full (q : Queue) (n i : nat) (ls : list loc) :
  (i < room q n)%nat -> length ls = i -> full (enqueued ls q) = false.
Proof.
  unfold full, room. rewrite qsize_enqueued. simpl maxsize.
  destruct (maxsize q <=? 0) eqn:E; [done|].
  intros H Hl. apply Z.leb_gt. lia.
Qed.

(** ** The loop of the handler *)

Section Loop.

Variable clock : nat -> string.

Lemma dicts_of_Some (xs : list pyobj) (ls : list loc) :
  dicts_of xs = Some ls -> xs = map PDict ls.
Proof.
  revert ls. induction xs as [|[l|v] xs IH]; intros ls H; simpl in H.
  - by inversion H.
  - destruct (dicts_of xs) as [ls'|]; [|done]. inversion H; subst; simpl.
    f_equal. by apply IH.
  - done.
Qed.

Lemma dicts_of_map (ls : list loc) : dicts_of (map PDict ls) = Some ls.
Proof. induction ls as [|l ls IH]; simpl; [done|]. by rewrite IH. Qed.

(** The loop over a list of dicts: it takes as many as the queue has room
    for, puts the defaults into these and into the first that did not fit,
    and reads the clock once for each of them. *)
Lemma ingest_loop_dicts (ls : list loc) (acc : Z) (w : World) :
  ingest_loop clock (map PDict ls) acc w =
  (Done (acc + Z.of_nat (room (queue w) (length ls))),
   {| heap := stamp clock (ticks w)
                (take (Nat.min (length ls) (S (room (queue w) (length ls)))) ls) (heap w);
      queue := enqueued (take (room (queue w) (length ls)) ls) (queue w);
      ticks := ticks w + Nat.min (length ls) (S (room (queue w) (length ls))) |}).
Proof.
  revert acc w. induction ls as [|l ls IH]; intros acc w.
  - destruct w as [h q t]; simpl.
    assert (room q 0 = 0%nat) as -> by (pose proof (room_le q 0); lia).
    simpl. by rewrite enqueued_nil, Z.add_0_r, Nat.add_0_r.
  - destruct w as [h q t]. cbn [map ingest_loop now_z heap queue ticks length].
    destruct (full q) eqn:F.
    + rewrite (put_nowait_full _ _ F), (room_full _ _ F).
      replace (Nat.min (S (length ls)) 1) with 1%nat by lia.
      cbn [take stamp Z.of_nat]. rewrite enqueued_nil, Z.add_0_r.
      do 2 f_equal. lia.
    + rewrite (put_nowait_not_full _ _ F), (room_not_full l _ _ F), IH.
      cbn [heap queue ticks]. rewrite enqueued_cons.
      f_equal; [f_equal; lia|].
      set (a := room (enqueued [l] q) (length ls)).
      replace (Nat.min (S (length ls)) (S (S a))) with (S (Nat.min (length ls) (S a))) by lia.
      cbn [take stamp]. f_equal. lia.
Qed.

(** A request with a body of the right shape. *)
Lemma ingest_events_wellformed (body : pybody) (ls : list loc) (w : World) :
  events_of body = Some ls ->
  ingest_events clock (Decoded body) w =
  (Return {| accepted := Z.of_nat (room (queue w) (length ls));
             queued_size := qsize (queue w) + Z.of_nat (room (queue w) (length ls));
             timestamp :=
               clock (ticks w + Nat.min (length ls) (S (room (queue w) (length ls)))) |},
   {| heap := stamp clock (ticks w)
                (take (Nat.min (length ls) (S (room (queue w) (length ls)))) ls) (heap w);
      queue := enqueued (take (room (queue w) (length ls)) ls) (queue w);
      ticks := S (ticks w + Nat.min (length ls) (S (room (queue w) (length ls)))) |}).
Proof.
  intros H.
  assert (exists xs, (match body with
                      | BDict l => Some [PDict l]
                      | BList xs => Some xs
                      | BOther _ => None
                      end) = Some xs /\ xs = map PDict ls) as (xs & Hxs & ->).
  { destruct body as [l|xs|v]; simpl in H.
    - inversion H; subst. by eexists.
    - eexists; split; [done|]. by apply dicts_of_Some.
    - done. }
  unfold ingest_events. rewrite Hxs, ingest_loop_dicts. cbn.
  rewrite qsize_enqueued, length_take.
  pose proof (room_le (queue w) (length ls)).
  do 3 f_equal. lia.
Qed.

(** ** The heap after the loop *)

Lemma stamp_dom (ls : list loc) (t0 : nat) (h : gmap loc (gmap string json)) :
  dom (stamp clock t0 ls h) = dom h.
Proof.
  revert t0 h. induction ls as [|l ls IH]; intros t0 h; simpl; [done|].
  by rewrite IH, dom_alter_L.
Qed.

Lemma stamp_other (ls : list loc) (t0 : nat) (h : gmap loc (gmap string json)) (l : loc) :
  l ∉ ls -> stamp clock t0 ls h !! l = h !! l.
Proof.
  revert t0 h. induction ls as [|x ls IH]; intros t0 h Hl; simpl; [done|].
  apply not_elem_of_cons in Hl as [Hx Hls].
  rewrite IH by done. by rewrite lookup_alter_ne.
Qed.

Lemma stamp_at (ls : list loc) (t0 i : nat) (h : gmap loc (gmap string json)) (l : loc) :
  NoDup ls -> ls !! i = Some l ->
  stamp clock t0 ls h !! l = default_metadata (clock (t0 + i)) <$> h !! l.
Proof.
  revert t0 i h. induction ls as [|x ls IH]; intros t0 i h Hnd Hi; [done|].
  apply NoDup_cons in Hnd as [Hx Hnd]. destruct i as [|i]; simpl in *.
  - inversion Hi; subst. rewrite stamp_other by done.
    rewrite lookup_alter_eq. by rewrite Nat.add_0_r.
  - rewrite (IH _ i) by done.
    assert (x <> l) by (intros ->; apply Hx; by eapply list_elem_of_lookup_2).
    rewrite lookup_alter_ne by done.
    by replace (S t0 + i)%nat with (t0 + S i)%nat by lia.
Qed.

End Loop.

(** ** Bodies from the wire *)

(** The dicts of a decoded array are new, allocated and pairwise distinct. *)
Lemma decode_items_fresh (xs : list json) (h h' : gmap loc (gmap string json))
    (os : list pyobj) :
  decode_items xs h = (os, h') ->
  NoDup (locs_of os) /\
  (forall l, l ∈ locs_of os -> (l ∉ dom h) /\ (l ∈ dom h')) /\
  dom h ⊆ dom h'.
Proof.
  revert h h' os. induction xs as [|x xs IH]; intros h h' os H.
  - inversion H; subst; simpl. split; [constructor|]. split; [|done].
    intros l Hl. by apply elem_of_nil in Hl.
  - destruct (decode_items xs h) as [osA hA] eqn:EA.
    destruct x; simpl in H; rewrite ?EA in H;
      try (inversion H; subst; simpl; by apply (IH _ _ _ EA)).
    unfold alloc in H.
    destruct (decode_items xs (<[fresh (dom h) := dict_of_pairs kvs]> h))
      as [os1 h1] eqn:E.
    inversion H; subst. apply IH in E as (Hnd & Hfr & Hsub).
    rewrite dom_insert_L in Hfr, Hsub. simpl.
    pose proof (is_fresh (dom h)) as Hnew.
    split; [|split].
    + apply NoDup_cons; split; [|done].
      intros Hin. apply Hfr in Hin as [Hin _].
      by apply Hin, elem_of_union_l, elem_of_singleton.
    + intros l Hl. apply elem_of_cons in Hl as [->|Hl].
      * split; [done|]. by apply Hsub, elem_of_union_l, elem_of_singleton.
      * apply Hfr in Hl as [Hl1 Hl2]. split; [|done].
        intros Hl. by apply Hl1, elem_of_union_r.
    + intros y Hy. by apply Hsub, elem_of_union_r.
Qed.

Lemma dicts_of_locs_of (xs : list pyobj) (ls : list loc) :
  dicts_of xs = Some ls -> locs_of xs = ls.
Proof. intros H. apply dicts_of_Some in H as ->. induction ls; simpl; congruence. Qed.

(** The events of a body that came over the wire are pairwise distinct
    dicts. *)
Lemma decode_events_NoDup (j : json) (h h' : gmap loc (gmap string json))
    (body : pybody) (ls : list loc) :
  decode j h = (body, h') -> events_of body = Some ls -> NoDup ls.
Proof.
  intros Hd He. destruct j; simpl in Hd; try (inversion Hd; subst; done).
  - destruct (decode_items xs h) as [os h1] eqn:E. inversion Hd; subst.
    simpl in He. apply decode_items_fresh in E as (Hnd & _).
    by rewrite (dicts_of_locs_of _ _ He) in Hnd.
  - unfold alloc in Hd. inversion Hd; subst. simpl in He. inversion He; subst.
    apply NoDup_singleton.
Qed.

Lemma take_min_length {A : Type} (k : nat) (ls : list A) :
  take (Nat.min (length ls) k) ls = take k ls.
Proof.
  destruct (decide (k <= length ls)%nat).
  - by rewrite Nat.min_r by lia.
  - rewrite Nat.min_l by lia. by rewrite !take_ge by lia.
Qed.

Lemma NoDup_take_prefix {A : Type} (k : nat) (ls : list A) :
  NoDup ls -> NoDup (take k ls).
Proof.
  intros H. rewrite <- (take_drop k ls) in H. by apply NoDup_app in H as [H _].
Qed.

Lemma NoDup_not_in_take (ls : list loc) (i k : nat) (l : loc) :
  NoDup ls -> ls !! i = Some l -> (k <= i)%nat -> l ∉ take k ls.
Proof.
  intros Hnd Hi Hk Hin. apply list_elem_of_lookup in Hin as [j Hj].
  pose proof (lookup_lt_Some _ _ _ Hj) as Hlt. rewrite length_take in Hlt.
  rewrite lookup_take_lt in Hj by lia.
  pose proof (NoDup_lookup _ _ _ _ Hnd Hi Hj). lia.
Qed.

(** ** The handler on the scenarios of the design document *)

(** Scenario A: capacity 2 and no consumer; three posts of one event are
    answered with [accepted] 1, 1, 0 and [queued_size] 1, 2, 2. *)
Example scenario_A (clock : nat -> string) :
  map counts_of (answers clock [JObj []; JObj []; JObj []] capacity_two)
  = [Some (1, 1); Some (1, 2); Some (0, 2)].
Proof. by vm_compute. Qed.

(** Scenario B: one free slot; a batch of three is answered with [accepted]
    1 and [queued_size] the capacity, and only the first event is queued. *)
Example scenario_B (clock : nat -> string) :
  let r := ingest_events clock
             (Decoded (BList [PDict 2%positive; PDict 3%positive; PDict 4%positive]))
             one_slot_left in
  counts_of (fst r) = Some (1, 2) /\
  items (queue (snd r)) = [1%positive; 2%positive].
Proof. by vm_compute. Qed.

(** A single object and an array of this one object are answered alike. *)
Example single_or_singleton (clock : nat -> string) (l : loc) (w : World) :
  ingest_events clock (Decoded (BDict l)) w
  = ingest_events clock (Decoded (BList [PDict l])) w.
Proof. done. Qed.

(** ** The claims about the handler *)

(** C1 (refuted on the code): a JSON array that holds a number is not
    answered with status 400.  [event.setdefault] raises [AttributeError] on
    the number, which no handler catches, so the status is 500; and an object
    that stands before the number in the array has been enqueued by then.
    No array at all is answered with 400; only a body that is neither an
    object nor an array gets the 400 and leaves the queue alone. *)
Theorem C1_array_with_number_raises (clock : nat -> string) (w : World) :
  post_events clock (JArr [JNum 1]) w = (AttributeError, w) /\
  http_status AttributeError = 500 /\
  (forall xs, http_status (fst (ingest_events clock (Decoded (BList xs)) w)) <> 400) /\
  (let r := post_events clock (JArr [JObj []; JNum 1]) initial in
   fst r = AttributeError /\ items (queue (snd r)) <> items (queue initial)) /\
  (forall v, ingest_events clock (Decoded (BOther v)) w =
             (HTTPException 400 "Body must be a JSON object or array pf objects", w)).
Proof.
  split; [by destruct w|]. split; [done|]. split; [|split; [|done]].
  - intros xs. unfold ingest_events.
    by destruct (ingest_loop clock xs 0 w) as [[acc|] w1].
  - split; [by vm_compute|].
    unfold post_events; cbn. discriminate.
Qed.

(** C3: a body of the right shape with the events [ls] is answered with
    status 200; the events enter the queue in the order of the body, as many
    as the queue has room for; every [put_nowait] before the first failure
    found room, the one after them found the queue full, nothing behind it
    was looked at (the clock was read once for each event up to the rejected
    one, and once for the answer), and [accepted] is the number enqueued. *)
Theorem C3_batch_stops_at_first_full (clock : nat -> string) (body : pybody)
    (ls : list loc) (w : World) :
  events_of body = Some ls ->
  let a := room (queue w) (length ls) in
  let r := ingest_events clock (Decoded body) w in
  (exists resp, fst r = Return resp /\
                accepted resp = Z.of_nat a /\
                queued_size resp = qsize (queue w) + Z.of_nat a) /\
  http_status (fst r) = 200 /\
  items (queue (snd r)) = items (queue w) ++ take a ls /\
  (a <= length ls)%nat /\
  (forall i, (i < a)%nat -> full (enqueued (take i ls) (queue w)) = false) /\
  ((a < length ls)%nat -> full (enqueued (take a ls) (queue w)) = true) /\
  ticks (snd r) = S (ticks w + Nat.min (length ls) (S a)).
Proof.
  intros H a r. subst r. rewrite (ingest_events_wellformed clock _ _ _ H).
  fold a. cbn [fst snd http_status queue ticks enqueued items].
  pose proof (room_le (queue w) (length ls)) as Hle. fold a in Hle.
  split; [eexists; split; [done|]; by split|].
  do 3 (split; [done|]). split; [|split; [|done]].
  - intros i Hi. apply (room_prefix_not_full _ (length ls) i); [done|].
    rewrite length_take. lia.
  - intros Hlt.
    rewrite (full_enqueued_length _ (replicate a 1%positive)).
    + by apply room_lt_full.
    + rewrite length_take, length_replicate. lia.
Qed.

Lemma C3_witness :
  events_of (BList [PDict 2%positive; PDict 3%positive; PDict 4%positive])
  = Some [2%positive; 3%positive; 4%positive] /\
  exists resp,
    fst (ingest_events clock_text
           (Decoded (BList [PDict 2%positive; PDict 3%positive; PDict 4%positive]))
           one_slot_left) = Return resp /\
    accepted resp = 1 /\ queued_size resp = 2.
Proof.
  split; [reflexivity|].
  destruct (C3_batch_stops_at_first_full clock_text
              (BList [PDict 2%positive; PDict 3%positive; PDict 4%positive])
              [2%positive; 3%positive; 4%positive] one_slot_left eq_refl)
    as [[resp [Hr [Ha Hq]]] _].
  exists resp. split; [exact Hr|]. split; [exact Ha|exact Hq].
Defined.

(** C4: the defaults are put in only under keys that are absent: under every
    key the dict keeps the value it had, a missing [_recieved_at] becomes the
    time of reception, a missing [_source] the generator's tag, and no other
    key appears; putting the defaults in a second time, at whatever time,
    changes nothing. *)
Theorem C4_defaults_idempotent_nondestructive (t t' : string)
    (m : gmap string json) (k : string) :
  default_metadata t m !! k =
    match m !! k with
    | Some v => Some v
    | None =>
        if decide (k = "_recieved_at") then Some (JStr t)
        else if decide (k = "_source") then Some (JStr "events-generator")
        else None
    end /\
  default_metadata t' (default_metadata t m) = default_metadata t m.
Proof.
  split; [apply default_metadata_lookup | apply default_metadata_twice].
Qed.

(** ** The size of the queue *)

Lemma run_op_within (cap : Z) (op : queue_op) (q : Queue) :
  0 < cap -> within cap q -> within cap (run_op op q).
Proof.
  intros Hcap [Hsz Hm]. destruct op as [x|]; simpl.
  - unfold put_nowait, full. rewrite Hm.
    destruct (cap <=? 0) eqn:E0; [apply Z.leb_le in E0; lia|].
    destruct (cap <=? qsize q) eqn:E; [done|].
    apply Z.leb_gt in E. split; [|done].
    unfold qsize in *; simpl. rewrite length_app; simpl. lia.
  - unfold get. destruct (items q) as [|y rest] eqn:E; [done|].
    split; [|done]. unfold qsize in *; simpl. rewrite E in Hsz; simpl in Hsz. lia.
Qed.

Lemma ingest_loop_within (clock : nat -> string) (cap : Z) (evs : list pyobj)
    (acc : Z) (w : World) :
  0 < cap -> within cap (queue w) -> within cap (queue (snd (ingest_loop clock evs acc w))).
Proof.
  intros Hcap. revert acc w. induction evs as [|[l|v] evs IH]; intros acc w Hw;
    [done| |done].
  cbn [ingest_loop now_z heap queue ticks].
  pose proof (run_op_within cap (Put l) _ Hcap Hw) as Hput. simpl in Hput.
  destruct (put_nowait l (queue w)) as [q'|]; [|done].
  by apply IH.
Qed.

Lemma service_step_within (clock : nat -> string) (cap : Z) (op : service_op)
    (w : World) :
  0 < cap -> within cap (queue w) -> within cap (queue (service_step clock op w)).
Proof.
  intros Hcap Hw. destruct op as [[e|body]| |]; unfold service_step.
  - done.
  - unfold ingest_events. destruct body as [l|xs|v]; cbv beta iota zeta; [| |done].
    + pose proof (ingest_loop_within clock cap [PDict l] 0 w Hcap Hw) as H.
      destruct (ingest_loop clock [PDict l] 0 w) as [[acc|] w1]; done.
    + pose proof (ingest_loop_within clock cap xs 0 w Hcap Hw) as H.
      destruct (ingest_loop clock xs 0 w) as [[acc|] w1]; done.
  - unfold consumer_get.
    pose proof (run_op_within cap Get _ Hcap Hw) as Hget. simpl in Hget.
    by destruct (get (queue w)) as [[x q1]|].
  - unfold consumer_done, task_done.
    by destruct (unfinished_tasks (queue w) <=? 0).
Qed.

(** C5: from a queue of capacity [cap > 0] whose size is within the
    capacity, the size stays between 0 and [cap] after every one of any
    sequence of [put_nowait] and [get]; the same holds for the queue of the
    service after every request and every step of a consumer; and a
    [put_nowait] on a queue that is at capacity fails, leaving no room for a
    size above it. *)
Theorem C5_queue_size_bounded (cap : Z) (q0 : Queue) :
  0 < cap -> within cap q0 ->
  (forall ops, Forall (fun q => 0 <= qsize q <= cap /\ maxsize q = cap)
                 (queue_trace ops q0)) /\
  (forall clock ops w0, queue w0 = q0 ->
     Forall (fun w => 0 <= qsize (queue w) <= cap) (service_trace clock ops w0)) /\
  (forall x q, within cap q -> qsize q = cap -> put_nowait x q = None).
Proof.
  intros Hcap H0. split; [|split].
  - intros ops. revert q0 H0. induction ops as [|op ops IH]; intros q0 H0; simpl;
      [constructor|].
    pose proof (run_op_within cap op q0 Hcap H0) as H1.
    constructor; [exact H1|by apply IH].
  - intros clock ops w0 Hq. subst q0. revert w0 H0.
    induction ops as [|op ops IH]; intros w0 H0; simpl; [constructor|].
    pose proof (service_step_within clock cap op w0 Hcap H0) as H1.
    constructor; [apply H1|by apply IH].
  - intros x q [_ Hm] Hfull. apply put_nowait_full. unfold full.
    rewrite Hm, Hfull.
    destruct (cap <=? 0) eqn:E0; [apply Z.leb_le in E0; lia|].
    apply Z.leb_le. lia.
Qed.

Lemma C5_witness :
  0 < 10000 /\ within 10000 EVENT_QUEUE /\
  Forall (fun q => 0 <= qsize q <= 10000 /\ maxsize q = 10000)
    (queue_trace [Get; Put 1%positive; Put 2%positive; Get] EVENT_QUEUE).
Proof.
  assert (0 < 10000) as Hcap by lia.
  assert (within 10000 EVENT_QUEUE) as H0 by (split; [vm_compute; split; discriminate|reflexivity]).
  split; [exact Hcap|]. split; [exact H0|].
  exact (proj1 (C5_queue_size_bounded 10000 EVENT_QUEUE Hcap H0) _).
Defined.

(** ** What the loop does to the events *)

(** C9 as it is stated fails for a rejected event that came with both
    metadata keys: the queue is full, the event is rejected, and its dict is
    what it was. *)
Lemma C9_counterexample :
  let r := ingest_events clock_text (Decoded (BDict 1%positive)) no_slot_left in
  events_of (BDict 1%positive) = Some [1%positive] /\
  [1%positive] !! room (queue no_slot_left) 1 = Some 1%positive /\
  accepted_of (fst r) = Some 0 /\
  items (queue (snd r)) = items (queue no_slot_left) /\
  heap (snd r) !! 1%positive = heap no_slot_left !! 1%positive.
Proof. vm_compute. repeat split; reflexivity. Qed.

Lemma default_metadata_id (t : string) (m : gmap string json) :
  is_Some (m !! "_recieved_at") -> is_Some (m !! "_source") ->
  default_metadata t m = m.
Proof.
  intros [r Hr] [s Hs]. unfold default_metadata, setdefault. by rewrite Hr, Hs.
Qed.

(** C9, amended: when the batch stops at a full queue, the event that did
    not fit, the one at position [accepted], has had the defaults applied all
    the same: its dict is the one it was with the defaults put in at the
    time of its turn, and it is not among the events this request enqueued.
    The dict is no longer what it was exactly when it lacked one of the two
    keys; an event that came with both is left as it was. *)
Theorem C9_rejected_event_has_defaults (clock : nat -> string) (body : pybody)
    (ls : list loc) (w : World) (l : loc) :
  events_of body = Some ls -> NoDup ls ->
  ls !! room (queue w) (length ls) = Some l ->
  let a := room (queue w) (length ls) in
  let r := ingest_events clock (Decoded body) w in
  accepted_of (fst r) = Some (Z.of_nat a) /\
  heap (snd r) !! l = default_metadata (clock (ticks w + a)%nat) <$> heap w !! l /\
  (l ∉ drop (length (items (queue w))) (items (queue (snd r)))) /\
  (forall m, heap w !! l = Some m ->
             (heap (snd r) !! l <> Some m <->
              m !! "_recieved_at" = None \/ m !! "_source" = None)).
Proof.
  intros H Hnd Hl a r. subst r. rewrite (ingest_events_wellformed clock _ _ _ H).
  fold a. fold a in Hl. cbn [fst snd heap queue enqueued items accepted_of].
  assert (heap_after : stamp clock (ticks w) (take (Nat.min (length ls) (S a)) ls) (heap w) !! l
          = default_metadata (clock (ticks w + a)%nat) <$> heap w !! l).
  { rewrite take_min_length. apply stamp_at.
    - by apply NoDup_take_prefix.
    - rewrite lookup_take_lt by lia. done. }
  split; [done|]. split; [exact heap_after|]. split.
  - rewrite drop_app_length. by apply (NoDup_not_in_take ls a).
  - intros m Hm. rewrite heap_after, Hm. simpl. split.
    { intros Hne.
      destruct (m !! "_recieved_at") as [r|] eqn:Er; [|by left].
      destruct (m !! "_source") as [s|] eqn:Es; [|by right].
      exfalso. apply Hne. f_equal. apply default_metadata_id; by eauto. }
    intros Hnone Heq. inversion Heq as [Hd].
    destruct Hnone as [Hk|Hk];
      [pose proof (default_metadata_lookup (clock (ticks w + a)%nat) m "_recieved_at") as Hlk
      |pose proof (default_metadata_lookup (clock (ticks w + a)%nat) m "_source") as Hlk];
      rewrite Hd, Hk in Hlk; simpl in Hlk; discriminate.
Qed.

Lemma C9_witness :
  events_of (BList [PDict 2%positive; PDict 3%positive; PDict 4%positive])
  = Some [2%positive; 3%positive; 4%positive] /\
  NoDup [2%positive; 3%positive; 4%positive] /\
  [2%positive; 3%positive; 4%positive] !! room (queue one_slot_left) 3 = Some 3%positive /\
  heap (snd (ingest_events clock_text
               (Decoded (BList [PDict 2%positive; PDict 3%positive; PDict 4%positive]))
               one_slot_left)) !! 3%positive
  = default_metadata (clock_text 1) <$> heap one_slot_left !! 3%positive.
Proof.
  assert (NoDup [2%positive; 3%positive; 4%positive]) as Hnd.
  { exact (bool_decide_unpack (NoDup [2%positive; 3%positive; 4%positive]) I). }
  split; [reflexivity|]. split; [exact Hnd|]. split; [reflexivity|].
  exact (proj1 (proj2 (C9_rejected_event_has_defaults clock_text
           (BList [PDict 2%positive; PDict 3%positive; PDict 4%positive])
           [2%positive; 3%positive; 4%positive] one_slot_left 3%positive
           eq_refl Hnd eq_refl))).
Defined.

(** C10: what enters the queue are the references of the body themselves,
    the first [accepted] of them; no dict is created; a dict that is not
    among the first [accepted + 1] events is what it was; and, the events
    being distinct dicts (those of a decoded body are, by
    [decode_events_NoDup]), each of the first [accepted + 1] is the dict it
    was with the defaults put in, every later one is unchanged. *)
Theorem C10_same_objects_in_place (clock : nat -> string) (body : pybody)
    (ls : list loc) (w : World) :
  events_of body = Some ls ->
  let a := room (queue w) (length ls) in
  let r := ingest_events clock (Decoded body) w in
  accepted_of (fst r) = Some (Z.of_nat a) /\
  items (queue (snd r)) = items (queue w) ++ take a ls /\
  dom (heap (snd r)) = dom (heap w) /\
  (forall l, l ∉ take (S a) ls -> heap (snd r) !! l = heap w !! l) /\
  (NoDup ls -> forall i l, ls !! i = Some l ->
     heap (snd r) !! l =
       if decide (i <= a)%nat
       then default_metadata (clock (ticks w + i)%nat) <$> heap w !! l
       else heap w !! l).
Proof.
  intros H a r. subst r. rewrite (ingest_events_wellformed clock _ _ _ H).
  fold a. cbn [fst snd heap queue enqueued items accepted_of].
  rewrite take_min_length.
  split; [done|]. split; [done|]. split; [apply stamp_dom|]. split.
  - intros l Hl. by apply stamp_other.
  - intros Hnd i l Hi. case_decide as Hia.
    + apply stamp_at; [by apply NoDup_take_prefix|].
      rewrite lookup_take_lt by lia. done.
    + apply stamp_other. apply (NoDup_not_in_take ls i); [done|done|lia].
Qed.

Lemma C10_witness :
  events_of (BList [PDict 2%positive; PDict 3%positive; PDict 4%positive])
  = Some [2%positive; 3%positive; 4%positive] /\
  items (queue (snd (ingest_events clock_text
               (Decoded (BList [PDict 2%positive; PDict 3%positive; PDict 4%positive]))
               one_slot_left)))
  = items (queue one_slot_left) ++ take (room (queue one_slot_left) 3)
                                      [2%positive; 3%positive; 4%positive].
Proof.
  split; [reflexivity|].
  exact (proj1 (proj2 (C10_same_objects_in_place clock_text
           (BList [PDict 2%positive; PDict 3%positive; PDict 4%positive])
           [2%positive; 3%positive; 4%positive] one_slot_left eq_refl))).
Defined.

End ServerFacts.

(** * Properties of the load generator *)

Module GeneratorFacts.
Import Generator.

(** ** Floats: the conversion of an int and the sign of a quotient *)

Lemma digits2_pos_lower (p : positive) :
  2 ^ (Z.pos (digits2_pos p) - 1) <= Z.pos p.
Proof.
  induction p as [p IH|p IH|]; simpl digits2_pos.
  - rewrite Pos2Z.inj_succ.
    replace (Z.succ (Z.pos (digits2_pos p)) - 1) with (Z.succ (Z.pos (digits2_pos p) - 1)) by lia.
    rewrite Z.pow_succ_r by lia. lia.
  - rewrite Pos2Z.inj_succ.
    replace (Z.succ (Z.pos (digits2_pos p)) - 1) with (Z.succ (Z.pos (digits2_pos p) - 1)) by lia.
    rewrite Z.pow_succ_r by lia. lia.
  - done.
Qed.

Lemma shr_m_shr_1 (r : shr_record) :
  0 <= shr_m r -> shr_m (shr_1 r) = Z.div2 (shr_m r).
Proof.
  destruct r as [m b s]. destruct m as [|[p|p|]|p]; simpl; intros H; try done; lia.
Qed.

Lemma shr_m_iter (p : positive) (r : shr_record) :
  0 <= shr_m r -> shr_m (SpecFloat.iter_pos shr_1 p r) = Z.shiftr (shr_m r) (Z.pos p).
Proof.
  revert r. induction p as [p IH|p IH|]; intros r H; simpl SpecFloat.iter_pos.
  - assert (0 <= shr_m (shr_1 r)) as H1.
    { rewrite shr_m_shr_1 by done. rewrite Z.div2_spec. by apply Z.shiftr_nonneg. }
    assert (0 <= shr_m (SpecFloat.iter_pos shr_1 p (shr_1 r))) as H2.
    { rewrite IH by done. by apply Z.shiftr_nonneg. }
    rewrite IH, IH, shr_m_shr_1, Z.div2_spec by done.
    rewrite !Z.shiftr_shiftr by lia. f_equal. lia.
  - assert (0 <= shr_m (SpecFloat.iter_pos shr_1 p r)) as H2.
    { rewrite IH by done. by apply Z.shiftr_nonneg. }
    rewrite IH, IH by done.
    rewrite !Z.shiftr_shiftr by lia. f_equal. lia.
  - rewrite shr_m_shr_1 by done. by rewrite Z.div2_spec.
Qed.

Lemma shr_m_of_loc (m : Z) (l : location) : shr_m (shr_record_of_loc m l) = m.
Proof. by destruct l as [|[]]. Qed.

Lemma shiftr_pos (p : positive) (n : Z) :
  n < Z.pos (digits2_pos p) -> 0 < Z.shiftr (Z.pos p) n.
Proof.
  intros H. destruct (Z.le_gt_cases 0 n) as [Hn|Hn].
  - rewrite Z.shiftr_div_pow2 by done.
    apply Z.div_str_pos. split; [by apply Z.pow_pos_nonneg|].
    etrans; [|apply digits2_pos_lower].
    apply Z.pow_le_mono_r; lia.
  - rewrite Z.shiftr_mul_pow2 by lia.
    apply Z.mul_pos_pos; [lia|]. apply Z.pow_pos_nonneg; lia.
Qed.

(** Rounding a positive mantissa whose exponent is not below the least
    exponent leaves a positive mantissa. *)
Lemma shr_fexp_pos (p : positive) (e : Z) (l : location) :
  -1074 <= e ->
  0 < shr_m (fst (shr_fexp prec emax (Z.pos p) e l)) /\
  -1074 <= snd (shr_fexp prec emax (Z.pos p) e l).
Proof.
  intros He. unfold shr_fexp, shr, fexp, SpecFloat.emin, prec, emax. simpl Zdigits2.
  destruct (Z.max (Z.pos (digits2_pos p) + e - 53) (3 - 1024 - 53) - e) as [|n|n] eqn:En;
    cbn [fst snd]; rewrite ?shr_m_of_loc; try (split; [done|lia]).
  rewrite shr_m_iter by (rewrite shr_m_of_loc; lia).
  rewrite shr_m_of_loc. split; [|lia].
  apply shiftr_pos. lia.
Qed.

Lemma round_nearest_even_pos (m : Z) (l : location) :
  0 < m -> 0 < round_nearest_even m l.
Proof.
  intros H. destruct l as [|[]]; simpl; try lia. destruct (Z.even m); lia.
Qed.

Lemma binary_round_aux_pos (s : bool) (p : positive) (e : Z) (l : location) :
  -1074 <= e ->
  (exists m e', binary_round_aux prec emax s (Z.pos p) e l = S754_finite s m e') \/
  binary_round_aux prec emax s (Z.pos p) e l = S754_infinity s.
Proof.
  intros He. unfold binary_round_aux.
  pose proof (shr_fexp_pos p e l He) as [H1 H2].
  destruct (shr_fexp prec emax (Z.pos p) e l) as [mrs' e'] eqn:E1. cbn [fst snd] in H1, H2.
  pose proof (round_nearest_even_pos (shr_m mrs') (loc_of_shr_record mrs') H1) as Hr.
  destruct (round_nearest_even (shr_m mrs') (loc_of_shr_record mrs')) as [|q|q] eqn:Eq;
    try lia.
  pose proof (shr_fexp_pos q e' loc_Exact H2) as [H3 H4].
  destruct (shr_fexp prec emax (Z.pos q) e' loc_Exact) as [mrs'' e''] eqn:E2.
  cbn [fst snd] in H3, H4.
  destruct (shr_m mrs'') as [|m|m]; try lia.
  destruct (e'' <=? emax - prec); [left; by eauto|by right].
Qed.

Lemma binary_round_aux_sign (s : bool) (m e : Z) (l : location) :
  match binary_round_aux prec emax s m e l with
  | S754_zero s' | S754_infinity s' | S754_finite s' _ _ => s' = s
  | S754_nan => True
  end.
Proof.
  unfold binary_round_aux.
  destruct (shr_fexp prec emax m e l) as [mrs' e'].
  destruct (shr_fexp prec emax _ e' loc_Exact) as [mrs'' e''].
  destruct (shr_m mrs''); try done.
  by destruct (e'' <=? emax - prec).
Qed.

Lemma float_of_int_pos (n : Z) (c : float) :
  0 < n -> float_of_int n = Ok c -> exists m e, c = S754_finite false m e.
Proof.
  intros Hn. destruct n as [|p|p]; try lia. unfold float_of_int.
  cbn [binary_normalize]. unfold binary_round.
  destruct (shl_align p 0 (fexp prec emax (Z.pos (digits2_pos p) + 0))) as [mz ez] eqn:E.
  assert (-1074 <= ez) as Hez.
  { unfold shl_align in E.
    destruct (fexp prec emax (Z.pos (digits2_pos p) + 0) - 0) eqn:E';
      inversion E; subst; try lia.
    unfold fexp, SpecFloat.emin, prec, emax. lia. }
  destruct (binary_round_aux_pos false mz ez loc_Exact Hez) as [(m & e & ->)| ->].
  - intros H. inversion H. eauto.
  - done.
Qed.

(** A positive float divided by the float of a positive int is not below
    zero. *)
Lemma flt_zero_pos (x : float) :
  flt fzero x = true ->
  (exists m e, x = S754_finite false m e) \/ x = S754_infinity false.
Proof.
  destruct x as [s|s| |s m e]; try done; destruct s; try done; [by right|left; eauto].
Qed.

Lemma div_pos_not_neg (x : float) (m : positive) (e : Z) :
  flt fzero x = true ->
  flt (SFdiv prec emax x (S754_finite false m e)) fzero = false.
Proof.
  intros Hx. apply flt_zero_pos in Hx as [(mx & ex & ->)| ->]; [|done].
  cbn [SFdiv].
  destruct (SFdiv_core_binary prec emax (Z.pos mx) ex (Z.pos m) e) as [[mz ez] lz].
  pose proof (binary_round_aux_sign (xorb false false) mz ez lz) as Hs.
  destruct (binary_round_aux prec emax (xorb false false) mz ez lz); try done;
    simpl in Hs; by subst.
Qed.

(** ** The rate of a worker *)

Lemma per_worker_rps_eq (R : float) (C : Z) (c : float) :
  float_of_int (Z.max C 1) = Ok c ->
  per_worker_rps R C = Ok (pymax (SFdiv prec emax R c) fzero).
Proof.
  intros Hc. unfold per_worker_rps. rewrite Hc.
  destruct (float_of_int_pos (Z.max C 1) c) as (m & e & ->); [lia|done|].
  done.
Qed.

(** C6: [run] starts [concurrency] workers (none for a concurrency of zero
    or less), each with the same rate [max(R / c, 0.0)], where [c] is
    [max(concurrency, 1)] as a float: the divisor is 1.0 for a concurrency of
    zero or less, a quotient below zero gives the rate 0.0, and for [R > 0]
    and [concurrency > 0] the rate is the quotient [R / concurrency] itself.
    Only a concurrency too large for a float starts no worker at all: the
    division raises. *)
Theorem C6_rate_split_evenly (url : string) (R D : float) (C : Z)
    (src : option string) (B J : Z) :
  match float_of_int (Z.max C 1) with
  | Raise e => run_tasks url R D C src B J = Raise e
  | Ok c =>
      let q := SFdiv prec emax R c in
      exists tasks,
        run_tasks url R D C src B J = Ok tasks /\
        length tasks = Z.to_nat C /\
        (forall t, t ∈ tasks -> rps t = pymax q fzero) /\
        (C <= 0 -> c = fone) /\
        (flt q fzero = true -> pymax q fzero = fzero) /\
        (flt fzero R = true -> 0 < C ->
         float_of_int C = Ok c /\ pymax q fzero = q)
  end.
Proof.
  destruct (float_of_int (Z.max C 1)) as [c|e] eqn:Hc.
  2: { unfold run_tasks, per_worker_rps. by rewrite Hc. }
  intros q. unfold run_tasks. rewrite (per_worker_rps_eq R C c Hc). fold q.
  eexists. split; [done|]. split; [by rewrite length_map, length_seq|].
  split; [|split; [|split]].
  - intros t Ht. apply list_elem_of_fmap in Ht as (i & -> & _). done.
  - intros HC. rewrite Z.max_r in Hc by lia. vm_compute in Hc. by inversion Hc.
  - unfold pymax. by intros ->.
  - intros HR HC. rewrite Z.max_l in Hc by lia. split; [done|].
    destruct (float_of_int_pos C c HC Hc) as (m & e & ->).
    unfold pymax, q. by rewrite div_pos_not_neg.
Qed.

Lemma C6_witness :
  exists tasks,
    run_tasks "http://localhost:8000/events"
      (S754_finite false 7036874417766400 (-47)) fzero 4 None 1 50 = Ok tasks /\
    length tasks = 4%nat /\
    (forall t, t ∈ tasks ->
       rps t = SFdiv prec emax (S754_finite false 7036874417766400 (-47))
                 (S754_finite false 4503599627370496 (-50))).
Proof.
  destruct (C6_rate_split_evenly "http://localhost:8000/events"
              (S754_finite false 7036874417766400 (-47)) fzero 4 None 1 50)
    as [tasks [Hrun [Hlen [Hrate [_ [_ Hpos]]]]]].
  exists tasks. split; [exact Hrun|]. split; [exact Hlen|].
  intros t Ht. rewrite (Hrate t Ht).
  exact (proj2 (Hpos eq_refl eq_refl)).
Defined.

(** ** One turn of the worker's loop *)

(** The pause by cases: no interval, an interval without jitter, and what is
    left, an interval with jitter. *)
Ltac pace_cases interval a :=
  unfold pace, bind, lift, ret, random_randint, asyncio_sleep;
  destruct (flt fzero interval); [|done];
  destruct (0 <? jitter_ms a); [|done].

Section Turn.

Variable load_payload : option string -> nat -> pyresult json.
Variable transport : nat -> string -> json -> option string.
Variable randint : nat -> Z -> Z -> Z.

Lemma loads_iter_loaded (n : nat) (env : Env) :
  loads (Nat.iter n loaded env) = (n + loads env)%nat /\
  posts (Nat.iter n loaded env) = posts env.
Proof. induction n as [|n [IH1 IH2]]; simpl; [done|]. by rewrite IH1, IH2. Qed.

(** A provider that always answers is called once for every element of the
    list. *)
Lemma load_many_ok (src : option string) (p : nat -> json) (n : nat) (env : Env) :
  (forall k, load_payload src k = Ok (p k)) ->
  load_many load_payload src n env
  = (Ok (map p (seq (loads env) n)), Nat.iter n loaded env).
Proof.
  intros Hp. revert env. induction n as [|n IH]; intros env; [done|].
  cbn [load_many]. unfold bind at 1. unfold call_load_payload at 1. rewrite Hp.
  unfold bind. rewrite IH. unfold ret. cbn [seq map loads loaded].
  by rewrite Nat.iter_succ_r.
Qed.

Lemma build_data_ok (a : Args) (p : nat -> json) (env : Env) :
  (forall k, load_payload (payload_src a) k = Ok (p k)) ->
  build_data load_payload a env
  = if 1 <? batch a
    then (Ok (JArr (map p (seq (S (loads env)) (Z.to_nat (batch a))))),
          Nat.iter (Z.to_nat (batch a)) loaded (loaded env))
    else (Ok (p (loads env)), loaded env).
Proof.
  intros Hp. unfold build_data, bind. unfold call_load_payload at 1. rewrite Hp.
  destruct (1 <? batch a); [|done].
  by rewrite (load_many_ok _ p).
Qed.

Lemma load_many_posts (src : option string) (n : nat) (env : Env) :
  posts (snd (load_many load_payload src n env)) = posts env.
Proof.
  revert env. induction n as [|n IH]; intros env; [done|].
  cbn [load_many]. unfold bind, call_load_payload.
  destruct (load_payload src (loads env)); [|done].
  specialize (IH (loaded env)).
  destruct (load_many load_payload src n (loaded env)) as [[xs|e] env']; exact IH.
Qed.

Lemma build_data_posts (a : Args) (env : Env) :
  posts (snd (build_data load_payload a env)) = posts env.
Proof.
  unfold build_data, bind, call_load_payload.
  destruct (load_payload (payload_src a) (loads env)); [|done].
  destruct (1 <? batch a); [|done].
  pose proof (load_many_posts (payload_src a) (Z.to_nat (batch a)) (loaded env)) as H.
  destruct (load_many load_payload (payload_src a) (Z.to_nat (batch a)) (loaded env))
    as [[xs|e] env']; exact H.
Qed.

(** The pause neither posts nor prints, and does not read what was printed. *)
Lemma pace_posts (a : Args) (interval : float) (env : Env) :
  posts (snd (pace randint a interval env)) = posts env.
Proof.
  pace_cases interval a.
  destruct (float_of_int (randint (draws env) 0 (jitter_ms a))) as [rf|e]; [|done].
  by destruct (truediv rf f1000).
Qed.

Lemma pace_logged (a : Args) (interval : float) (line : string) (env : Env) :
  pace randint a interval (logged line env)
  = (fst (pace randint a interval env), logged line (snd (pace randint a interval env))).
Proof.
  pace_cases interval a. cbn [draws logged].
  destruct (float_of_int (randint (draws env) 0 (jitter_ms a))) as [rf|e]; [|done].
  by destruct (truediv rf f1000).
Qed.

Lemma pace_no_jitter (a : Args) (interval : float) (env : Env) :
  jitter_ms a <= 0 -> fst (pace randint a interval env) = Ok tt.
Proof.
  intros H. unfold pace, bind, ret, asyncio_sleep.
  destruct (flt fzero interval); [|done].
  destruct (0 <? jitter_ms a) eqn:E; [apply Z.ltb_lt in E; lia|done].
Qed.

Lemma pace_ok (a : Args) (interval : float) (env : Env) :
  (forall k, exists f, float_of_int (randint k 0 (jitter_ms a)) = Ok f) ->
  fst (pace randint a interval env) = Ok tt.
Proof.
  intros H. pace_cases interval a.
  destruct (H (draws env)) as [f ->]. unfold truediv.
  by replace (is_zero f1000) with false by (by vm_compute).
Qed.

(** A turn after the data is built: one post, then the pause. *)
Lemma iteration_after_build (a : Args) (interval : float) (sent : Z)
    (env env1 : Env) (data : json) :
  build_data load_payload a env = (Ok data, env1) ->
  iteration load_payload transport randint a interval sent env
  = match transport (length (posts env1)) (url a) data with
    | None =>
        (match fst (pace randint a interval (posted data env1)) with
         | Ok _ => Ok (sent + batch a)
         | Raise e => Raise e
         end,
         snd (pace randint a interval (posted data env1)))
    | Some e =>
        (match fst (pace randint a interval (posted data env1)) with
         | Ok _ => Ok (sent + batch a)
         | Raise e => Raise e
         end,
         logged ("[" +:+ name a +:+ "] error: " +:+ e)
           (snd (pace randint a interval (posted data env1))))
    end.
Proof.
  intros Hb. unfold iteration. unfold bind at 1. rewrite Hb.
  unfold bind at 1. unfold send.
  destruct (transport (length (posts env1)) (url a) data) as [e|].
  - unfold print. unfold bind. rewrite pace_logged.
    destruct (pace randint a interval (posted data env1)) as [[u|ex] env2]; done.
  - unfold bind.
    destruct (pace randint a interval (posted data env1)) as [[u|ex] env2]; done.
Qed.

End Turn.

(** ** The claims about a turn *)

(** C2 (refuted on the code): in a turn with a batch of two the worker calls
    the provider three times, not twice: line 78 loads a payload before the
    batch size is looked at, line 81 loads two more for the array, and the
    first one is in no request.  The request itself is the array of two. *)
Theorem C2_batch_of_two_loads_three :
  let r := iteration numbered answering upper (args_of 2 fzero) fone 0 env0 in
  1 <= batch (args_of 2 fzero) /\
  posts (snd r) = [JArr [JNum 1; JNum 2]] /\
  (loads (snd r) - loads env0)%nat = 3%nat /\
  (loads (snd r) - loads env0)%nat <> Z.to_nat (batch (args_of 2 fzero)).
Proof.
  vm_compute. split; [discriminate|]. split; [reflexivity|].
  split; [reflexivity|discriminate].
Qed.

(** What a turn loads, for any batch size: with a provider that answers
    every call, a turn with batch size 1 calls it once and posts that
    payload; a turn with batch size [B > 1] calls it [B + 1] times, drops the
    first payload and posts the array of the [B] that follow, one call for
    each element; either way the turn posts this one request. *)
Theorem payloads_per_turn (load_payload : option string -> nat -> pyresult json)
    (a : Args) (p : nat -> json) (env : Env) :
  1 <= batch a ->
  (forall k, load_payload (payload_src a) k = Ok (p k)) ->
  let r := build_data load_payload a env in
  (batch a = 1 ->
   fst r = Ok (p (loads env)) /\ loads (snd r) = S (loads env)) /\
  (1 < batch a ->
   exists xs, fst r = Ok (JArr xs) /\
              xs = map p (seq (S (loads env)) (Z.to_nat (batch a))) /\
              length xs = Z.to_nat (batch a) /\
              loads (snd r) = S (Z.to_nat (batch a) + loads env)) /\
  (forall transport randint interval sent data,
     fst r = Ok data ->
     posts (snd (iteration load_payload transport randint a interval sent env))
     = posts env ++ [data]).
Proof.
  intros HB Hp r. subst r. split; [|split].
  - intros H1. rewrite (build_data_ok _ _ p) by done.
    by replace (1 <? batch a) with false by (symmetry; apply Z.ltb_ge; lia).
  - intros H1. rewrite (build_data_ok _ _ p) by done.
    replace (1 <? batch a) with true by (symmetry; apply Z.ltb_lt; lia).
    eexists. split; [done|]. split; [done|].
    split; [by rewrite length_map, length_seq|].
    cbn [snd]. destruct (loads_iter_loaded (Z.to_nat (batch a)) (loaded env)) as [-> _].
    simpl. lia.
  - intros transport randint interval sent data Hd.
    pose proof (build_data_posts load_payload a env) as Hposts.
    destruct (build_data load_payload a env) as [res env1] eqn:Hb.
    cbn [fst snd] in Hd, Hposts. subst res.
    rewrite (iteration_after_build _ _ _ _ _ _ _ _ _ Hb).
    destruct (transport (length (posts env1)) (url a) data); cbn [snd logged posts];
      rewrite pace_posts; simpl; by rewrite Hposts.
Qed.

Lemma payloads_per_turn_witness :
  1 <= batch (args_of 3 fzero) /\
  (forall k, numbered (payload_src (args_of 3 fzero)) k = Ok (JNum (Z.of_nat k))) /\
  exists xs, fst (build_data numbered (args_of 3 fzero) env0) = Ok (JArr xs) /\
             length xs = 3%nat /\
             loads (snd (build_data numbered (args_of 3 fzero) env0)) = 4%nat.
Proof.
  assert (1 <= batch (args_of 3 fzero)) as HB by (vm_compute; discriminate).
  assert (forall k, numbered (payload_src (args_of 3 fzero)) k = Ok (JNum (Z.of_nat k)))
    as Hp by reflexivity.
  split; [exact HB|]. split; [exact Hp|].
  destruct (proj1 (proj2 (payloads_per_turn numbered (args_of 3 fzero)
                            (fun k => JNum (Z.of_nat k)) env0 HB Hp)))
    as [xs [Hx [_ [Hl Hn]]]]; [reflexivity|].
  exists xs. split; [exact Hx|]. split; [exact Hl|exact Hn].
Defined.

(** C7: a turn whose request fails in the transport ends as the same turn
    with a transport that answers, but for the one line it prints: the same
    count, [sent + batch], comes back (or the same exception of the pause),
    the request was posted once and no second time, and the loop goes on to
    its next turn with that count. *)
Theorem C7_transport_failure_swallowed
    (load_payload : option string -> nat -> pyresult json)
    (transport : nat -> string -> json -> option string)
    (randint : nat -> Z -> Z -> Z)
    (a : Args) (interval : float) (sent : Z) (env env1 : Env) (data : json)
    (e : string) :
  build_data load_payload a env = (Ok data, env1) ->
  transport (length (posts env1)) (url a) data = Some e ->
  let failed := iteration load_payload transport randint a interval sent env in
  let fine := iteration load_payload answering randint a interval sent env in
  failed = (fst fine, logged ("[" +:+ name a +:+ "] error: " +:+ e) (snd fine)) /\
  posts (snd failed) = posts env ++ [data] /\
  (forall s, fst failed = Ok s -> s = sent + batch a) /\
  (jitter_ms a <= 0 -> fst failed = Ok (sent + batch a)) /\
  (forall monotonic fuel end_t env0,
     read_clock env0 = env ->
     flt (monotonic (reads env0)) end_t = true ->
     worker_loop monotonic load_payload transport randint (S fuel) a interval end_t
       sent env0
     = match failed with
       | (Ok s, env') =>
           worker_loop monotonic load_payload transport randint fuel a interval end_t
             s env'
       | (Raise ex, env') => (Raise ex, env')
       end).
Proof.
  intros Hb He failed fine. subst failed fine.
  rewrite !(iteration_after_build _ _ _ _ _ _ _ _ _ Hb), He.
  unfold answering. cbn [fst snd].
  pose proof (build_data_posts load_payload a env) as Hposts.
  rewrite Hb in Hposts. cbn [snd] in Hposts.
  split; [done|]. split; [|split; [|split]].
  - cbn [logged posts]. by rewrite pace_posts, <- Hposts.
  - intros s Hs. destruct (fst (pace randint a interval (posted data env1)));
      by inversion Hs.
  - intros Hj. by rewrite pace_no_jitter.
  - intros monotonic fuel end_t env0 Henv Hlt. subst env.
    cbn [worker_loop]. unfold bind at 1. unfold time_monotonic. rewrite Hlt.
    unfold bind at 1.
    rewrite (iteration_after_build _ _ _ _ _ _ _ _ _ Hb), He.
    by destruct (fst (pace randint a interval (posted data env1))).
Qed.

Lemma C7_witness :
  build_data numbered (args_of 1 fzero) env0 = (Ok (JNum 0), loaded env0) /\
  timing_out (length (posts (loaded env0))) (url (args_of 1 fzero)) (JNum 0)
  = Some "timed out" /\
  iteration numbered timing_out upper (args_of 1 fzero) fone 7 env0
  = (fst (iteration numbered answering upper (args_of 1 fzero) fone 7 env0),
     logged ("[" +:+ name (args_of 1 fzero) +:+ "] error: " +:+ "timed out")
       (snd (iteration numbered answering upper (args_of 1 fzero) fone 7 env0))).
Proof.
  split; [reflexivity|]. split; [reflexivity|].
  exact (proj1 (C7_transport_failure_swallowed numbered timing_out upper
                  (args_of 1 fzero) fone 7 env0 (loaded env0) (JNum 0) "timed out"
                  eq_refl eq_refl)).
Defined.

(** ** A run without a deadline *)

Lemma interval_of_ok (r : float) : exists i, interval_of r = Ok i.
Proof.
  unfold interval_of, truediv. destruct (flt fzero r) eqn:E; [|by eauto].
  destruct r as [s|s| |s m e]; simpl; try done; eauto.
Qed.

Lemma not_positive (d : float) : SFleb d fzero = true -> flt fzero d = false.
Proof. destruct d as [s|s| |s m e]; try done; by destruct s. Qed.

Lemma finite_below_inf (t : float) : is_finite t = true -> flt t finf = true.
Proof. destruct t as [s|s| |s m e]; try done; by destruct s. Qed.

Section Forever.

Variable monotonic : nat -> float.
Variable load_payload : option string -> nat -> pyresult json.
Variable transport : nat -> string -> json -> option string.
Variable randint : nat -> Z -> Z -> Z.

Hypothesis clock_finite : forall k, is_finite (monotonic k) = true.


(** With collaborators that do not raise, every turn posts a request. *)
Lemma iteration_runs (a : Args) (interval : float) (sent : Z) (env : Env) :
  (forall k, exists p, load_payload (payload_src a) k = Ok p) ->
  (forall k, exists f, float_of_int (randint k 0 (jitter_ms a)) = Ok f) ->
  exists env',
    iteration load_payload transport randint a interval sent env
    = (Ok (sent + batch a), env') /\
    length (posts env') = S (length (posts env)).
Proof.
  intros Hp Hj.
  assert (exists data env1, build_data load_payload a env = (Ok data, env1))
    as (data & env1 & Hb).
  { unfold build_data, bind. unfold call_load_payload at 1.
    destruct (Hp (loads env)) as [p0 ->].
    destruct (1 <? batch a); [|by eauto].
    assert (forall n e0, exists xs e1,
               load_many load_payload (payload_src a) n e0 = (Ok xs, e1)) as Hmany.
    { induction n as [|n IHn]; intros e0; [by eauto|].
      cbn [load_many]. unfold bind at 1. unfold call_load_payload at 1.
      destruct (Hp (loads e0)) as [p1 ->]. unfold bind.
      destruct (IHn (loaded e0)) as (xs & e1 & ->). by eauto. }
    destruct (Hmany (Z.to_nat (batch a)) (loaded env)) as (xs & e1 & ->). by eauto. }
  pose proof (build_data_posts load_payload a env) as Hposts.
  rewrite Hb in Hposts. cbn [snd] in Hposts.
  rewrite (iteration_after_build _ _ _ _ _ _ _ _ _ Hb).
  pose proof (pace_ok randint a interval (posted data env1) Hj) as Hpace.
  pose proof (pace_posts randint a interval (posted data env1)) as Hpp.
  destruct (transport (length (posts env1)) (url a) data);
    rewrite Hpace; eexists; (split; [done|]); cbn [logged posts];
    rewrite Hpp; cbn [posted posts]; rewrite length_app, Hposts; simpl; lia.
Qed.


End Forever.




End GeneratorFacts.

(** * Further properties of the ingest service *)

Module ServerMore.
Import Server ServerFacts.

Section Handler.

Variable clock : nat -> string.

(** ** The loop on any list *)

(** What the loop does to the queue, whatever the elements: it appends some
    first dicts of the list, in order, and counts them. *)
Lemma ingest_loop_appends (evs : list pyobj) (acc : Z) (w : World) :
  exists ls,
    ls `prefix_of` locs_of evs /\
    queue (snd (ingest_loop clock evs acc w)) = enqueued ls (queue w) /\
    (forall a, fst (ingest_loop clock evs acc w) = Done a ->
               a = acc + Z.of_nat (length ls)) /\
    (length (locs_of evs) <= length evs)%nat.
Proof.
  revert acc w. induction evs as [|[l|v] evs IH]; intros acc w.
  - exists []. split; [done|]. split; [by rewrite enqueued_nil|].
    split; [|done]. intros a H. inversion H. simpl. lia.
  - cbn [ingest_loop now_z heap queue ticks locs_of].
    destruct (full (queue w)) eqn:F.
    + rewrite (put_nowait_full _ _ F). exists [].
      split; [apply prefix_nil|]. split; [by rewrite enqueued_nil|].
      split; [|destruct (IH 0 w) as (_ & _ & _ & _ & Hlen); simpl; lia].
      intros a H. inversion H. simpl. lia.
    + rewrite (put_nowait_not_full _ _ F).
      destruct (IH (acc + 1)
                  {| heap := alter (default_metadata (clock (ticks w))) l (heap w);
                     queue := enqueued [l] (queue w); ticks := S (ticks w) |})
        as (ls & Hpre & Hq & Hacc & Hlen).
      cbn [queue] in Hq. exists (l :: ls). split; [by apply prefix_cons|].
      split; [by rewrite Hq, enqueued_cons|]. split; [|simpl; lia].
      intros a H. rewrite (Hacc a H). simpl length. lia.
  - exists []. split; [apply prefix_nil|]. split; [by rewrite enqueued_nil|].
    split; [done|]. destruct (IH 0 w) as (_ & _ & _ & _ & Hlen). simpl. lia.
Qed.

(** What it does to the heap: no dict appears or goes, and a dict the list
    does not refer to stays what it was. *)
Lemma ingest_loop_heap (evs : list pyobj) (acc : Z) (w : World) :
  dom (heap (snd (ingest_loop clock evs acc w))) = dom (heap w) /\
  (forall l, l ∉ locs_of evs ->
             heap (snd (ingest_loop clock evs acc w)) !! l = heap w !! l).
Proof.
  revert acc w. induction evs as [|[l|v] evs IH]; intros acc w; [done| |done].
  cbn [ingest_loop now_z heap queue ticks locs_of].
  destruct (put_nowait l (queue w)) as [q'|]; cbn [snd heap].
  - destruct (IH (acc + 1)
                {| heap := alter (default_metadata (clock (ticks w))) l (heap w);
                   queue := q'; ticks := S (ticks w) |}) as [Hd Ho].
    cbn [heap] in Hd, Ho. split; [by rewrite Hd, dom_alter_L|].
    intros l' Hl'. apply not_elem_of_cons in Hl' as [Hne Hl'].
    rewrite Ho by done. by rewrite lookup_alter_ne.
  - split; [by rewrite dom_alter_L|].
    intros l' Hl'. apply not_elem_of_cons in Hl' as [Hne Hl'].
    by rewrite lookup_alter_ne.
Qed.

(** The loop on a list that starts with the dicts [ls]: when they all fit it
    goes on with what follows them, else it ends among them. *)
Lemma ingest_loop_app (ls : list loc) (tail : list pyobj) (acc : Z) (w : World) :
  ingest_loop clock (map PDict ls ++ tail) acc w =
  if decide (room (queue w) (length ls) = length ls)
  then ingest_loop clock tail (acc + Z.of_nat (length ls))
         {| heap := stamp clock (ticks w) ls (heap w);
            queue := enqueued ls (queue w);
            ticks := ticks w + length ls |}
  else ingest_loop clock (map PDict ls) acc w.
Proof.
  revert acc w. induction ls as [|l ls IH]; intros acc w.
  - destruct w as [h q t]. cbn [map app length heap queue ticks].
    assert (room q 0 = 0%nat) as -> by (pose proof (room_le q 0); lia).
    rewrite decide_True by done. cbn [stamp heap queue ticks].
    by rewrite enqueued_nil, Z.add_0_r, Nat.add_0_r.
  - destruct w as [h q t].
    cbn [map app ingest_loop now_z heap queue ticks length].
    destruct (full q) eqn:F.
    + rewrite (put_nowait_full _ _ F), (room_full _ _ F).
      by rewrite decide_False by lia.
    + rewrite (put_nowait_not_full _ _ F), (room_not_full l _ _ F), IH.
      cbn [heap queue ticks].
      set (a := room (enqueued [l] q) (length ls)).
      destruct (decide (a = length ls)) as [E|E].
      * rewrite decide_True by lia. rewrite enqueued_cons. cbn [stamp length].
        replace (acc + 1 + Z.of_nat (length ls))
          with (acc + Z.of_nat (S (length ls))) by lia.
        by replace (S t + length ls)%nat with (t + S (length ls))%nat by lia.
      * by rewrite decide_False by lia.
Qed.

(** ** Answers of the handler *)

(** X1: The handler answers 400 exactly for a body that is not JSON and for a
    JSON value that is neither an object nor an array; then it has read no
    clock and touched neither a dict nor the queue. *)
Theorem status_400_iff (req : request) (w : World) :
  (http_status (fst (ingest_events clock req w)) = 400 <->
   (exists e, req = Malformed e) \/ (exists v, req = Decoded (BOther v))) /\
  (http_status (fst (ingest_events clock req w)) = 400 ->
   snd (ingest_events clock req w) = w).
Proof.
  destruct req as [e|[l|xs|v]]; unfold ingest_events; cbv beta iota zeta.
  - split; [|done]. split; [by eauto|done].
  - destruct (ingest_loop clock [PDict l] 0 w) as [[acc|] w1]; simpl;
      (split; [split; [done|intros [[? ?]|[? ?]]; done]|done]).
  - destruct (ingest_loop clock xs 0 w) as [[acc|] w1]; simpl;
      (split; [split; [done|intros [[? ?]|[? ?]]; done]|done]).
  - split; [|done]. split; [by eauto|done].
Qed.

(** X2: An array whose first elements are the dicts [ls], followed by something
    that is not a dict: when the queue has room for all of [ls], the handler
    ends with the [AttributeError] after it has put the defaults into every
    one of them and enqueued them all; nothing is taken back. *)
Theorem array_with_non_object_half_done (ls : list loc) (v : json)
    (rest : list pyobj) (w : World) :
  room (queue w) (length ls) = length ls ->
  ingest_events clock (Decoded (BList (map PDict ls ++ PAtom v :: rest))) w
  = (AttributeError,
     {| heap := stamp clock (ticks w) ls (heap w);
        queue := enqueued ls (queue w);
        ticks := ticks w + length ls |}).
Proof.
  intros H. unfold ingest_events. cbv beta iota zeta.
  rewrite ingest_loop_app, decide_True by done. done.
Qed.

(** X3: The same array when the queue has no room for all of [ls]: the loop
    stops at the full queue before it comes to the element that is not a
    dict, and the answer is the 200 of the array of [ls] alone. *)
Theorem array_with_non_object_unseen (ls : list loc) (tail : list pyobj)
    (w : World) :
  (room (queue w) (length ls) < length ls)%nat ->
  ingest_events clock (Decoded (BList (map PDict ls ++ tail))) w
  = ingest_events clock (Decoded (BList (map PDict ls))) w /\
  http_status (fst (ingest_events clock (Decoded (BList (map PDict ls ++ tail))) w))
  = 200.
Proof.
  intros H. unfold ingest_events. cbv beta iota zeta.
  rewrite ingest_loop_app, decide_False by lia. split; [done|].
  by rewrite ingest_loop_dicts.
Qed.

(** X4: An answer of the handler, whatever the body: [queued_size] is the size
    of the queue after the request, the queue and its count of pending
    completions have grown by [accepted], which is between 0 and the number
    of elements of the body, and no dict has appeared or gone. *)
Theorem answer_counts (body : pybody) (w : World) (resp : IngestResponse) :
  fst (ingest_events clock (Decoded body) w) = Return resp ->
  let w' := snd (ingest_events clock (Decoded body) w) in
  queued_size resp = qsize (queue w') /\
  qsize (queue w') = qsize (queue w) + accepted resp /\
  unfinished_tasks (queue w') = unfinished_tasks (queue w) + accepted resp /\
  0 <= accepted resp <= body_length body /\
  dom (heap w') = dom (heap w).
Proof.
  unfold ingest_events. cbv beta iota zeta.
  assert (forall evs,
    fst (match ingest_loop clock evs 0 w with
         | (Done acc, w1) =>
             let '(t, w2) := now_z clock w1 in
             (Return {| accepted := acc; queued_size := qsize (queue w2);
                        timestamp := t |}, w2)
         | (Raised, w1) => (AttributeError, w1)
         end) = Return resp ->
    let w' := snd (match ingest_loop clock evs 0 w with
                   | (Done acc, w1) =>
                       let '(t, w2) := now_z clock w1 in
                       (Return {| accepted := acc; queued_size := qsize (queue w2);
                                  timestamp := t |}, w2)
                   | (Raised, w1) => (AttributeError, w1)
                   end) in
    queued_size resp = qsize (queue w') /\
    qsize (queue w') = qsize (queue w) + accepted resp /\
    unfinished_tasks (queue w') = unfinished_tasks (queue w) + accepted resp /\
    0 <= accepted resp <= Z.of_nat (length evs) /\
    dom (heap w') = dom (heap w)) as Hloop.
  { intros evs.
    destruct (ingest_loop_appends evs 0 w) as (ls & Hpre & Hq & Hacc & Hlen).
    destruct (ingest_loop_heap evs 0 w) as [Hdom _].
    destruct (ingest_loop clock evs 0 w) as [[acc|] w1]; [|done].
    unfold now_z. cbn [fst snd queue heap] in *. intros H. inversion H; subst resp.
    cbn [accepted queued_size]. rewrite Hq, qsize_enqueued.
    rewrite (Hacc acc eq_refl). apply prefix_length in Hpre.
    split; [done|]. split; [lia|]. split; [simpl; lia|]. split; [lia|].
    exact Hdom. }
  destruct body as [l|xs|v]; [apply (Hloop [PDict l])|apply Hloop|done].
Qed.

End Handler.

Lemma array_with_non_object_witness :
  room (queue capacity_two) 1 = 1%nat /\
  fst (ingest_events clock_text
         (Decoded (BList (map PDict [1%positive] ++ PAtom (JNum 5) :: [])))
         capacity_two) = AttributeError.
Proof.
  split; [reflexivity|].
  exact (f_equal fst (array_with_non_object_half_done clock_text [1%positive]
                        (JNum 5) [] capacity_two eq_refl)).
Defined.

Lemma array_with_non_object_unseen_witness :
  (room (queue one_slot_left) 2 < 2)%nat /\
  http_status (fst (ingest_events clock_text
                      (Decoded (BList (map PDict [2%positive; 3%positive]
                                       ++ [PAtom (JNum 5)]))) one_slot_left))
  = 200.
Proof.
  assert (room (queue one_slot_left) 2 < 2)%nat as H by (vm_compute; lia).
  split; [exact H|].
  exact (proj2 (array_with_non_object_unseen clock_text [2%positive; 3%positive]
                  [PAtom (JNum 5)] one_slot_left H)).
Defined.

Lemma answer_counts_witness :
  fst (ingest_events clock_text (Decoded (BDict 2%positive)) one_slot_left)
  = Return {| accepted := 1; queued_size := 2; timestamp := clock_text 1 |} /\
  unfinished_tasks (queue (snd (ingest_events clock_text (Decoded (BDict 2%positive))
                                  one_slot_left)))
  = unfinished_tasks (queue one_slot_left) + 1.
Proof.
  split; [reflexivity|].
  exact (proj1 (proj2 (proj2 (answer_counts clock_text (BDict 2%positive)
                                one_slot_left _ eq_refl)))).
Defined.

End ServerMore.

Module ServiceFacts.
Import Server ServerFacts ServerMore.

(** ** Requests from the wire *)

Lemma decode_items_keeps (xs : list json) (h h' : gmap loc (gmap string json))
    (os : list pyobj) (l : loc) :
  decode_items xs h = (os, h') -> l ∈ dom h -> h' !! l = h !! l.
Proof.
  revert h h' os. induction xs as [|x xs IH]; intros h h' os H Hl.
  - by inversion H.
  - destruct (decode_items xs h) as [osA hA] eqn:EA.
    destruct x; simpl in H; rewrite ?EA in H;
      try (inversion H; subst; by apply (IH _ _ _ EA)).
    unfold alloc in H.
    destruct (decode_items xs (<[fresh (dom h) := dict_of_pairs kvs]> h))
      as [os1 h1] eqn:E.
    inversion H; subst.
    assert (fresh (dom h) <> l) as Hne.
    { intros <-. by apply (is_fresh (dom h)). }
    rewrite (IH _ _ _ E).
    + by rewrite lookup_insert_ne.
    + rewrite dom_insert_L. by apply elem_of_union_r.
Qed.

(** The decoding of a body: the dicts that were alive stay what they were,
    and the dicts of the body are new and alive. *)
Lemma decode_spec (j : json) (h h' : gmap loc (gmap string json)) (body : pybody) :
  decode j h = (body, h') ->
  (forall l, l ∈ dom h -> h' !! l = h !! l) /\
  (forall l, l ∈ locs_of (elements_of body) -> (l ∉ dom h) /\ (l ∈ dom h')).
Proof.
  intros H. destruct j; simpl in H;
    try (inversion H; subst; split; [done|]; intros l Hl; by apply elem_of_nil in Hl).
  - destruct (decode_items xs h) as [os h1] eqn:E. inversion H; subst.
    split; [intros l; by apply (decode_items_keeps _ _ _ _ _ E)|].
    by apply (decode_items_fresh _ _ _ _ E).
  - unfold alloc in H. inversion H; subst.
    assert (forall l, l ∈ dom h -> fresh (dom h) <> l) as Hne.
    { intros l Hl <-. by apply (is_fresh (dom h)). }
    split; [intros l Hl; by rewrite lookup_insert_ne by by apply Hne|].
    intros l Hl. apply list_elem_of_singleton in Hl as ->.
    split; [apply is_fresh|]. rewrite dom_insert_L.
    by apply elem_of_union_l, elem_of_singleton.
Qed.

Section Wire.

Variable clock : nat -> string.

(** The dicts and the queue after the handler are those after its loop. *)
Lemma ingest_events_state (body : pybody) (w : World) :
  heap (snd (ingest_events clock (Decoded body) w))
  = heap (snd (ingest_loop clock (elements_of body) 0 w)) /\
  queue (snd (ingest_events clock (Decoded body) w))
  = queue (snd (ingest_loop clock (elements_of body) 0 w)).
Proof.
  unfold ingest_events. cbv beta iota zeta.
  destruct body as [l|xs|v]; cbn [elements_of]; [| |done].
  - by destruct (ingest_loop clock [PDict l] 0 w) as [[acc|] w1].
  - by destruct (ingest_loop clock xs 0 w) as [[acc|] w1].
Qed.

Lemma tagged_alter (t : string) (x l : loc) (h : gmap loc (gmap string json)) :
  tagged h l -> tagged (alter (default_metadata t) x h) l.
Proof.
  intros (m & Hm & Hr & Hs). destruct (decide (x = l)) as [->|Hne].
  - exists (default_metadata t m). rewrite lookup_alter_eq, Hm. split; [done|].
    rewrite !default_metadata_lookup.
    destruct Hr as [r ->], Hs as [s ->]. by eauto.
  - exists m. by rewrite lookup_alter_ne.
Qed.

Lemma tagged_new (t : string) (l : loc) (h : gmap loc (gmap string json)) :
  l ∈ dom h -> tagged (alter (default_metadata t) l h) l.
Proof.
  intros Hl. apply elem_of_dom in Hl as [m Hm].
  exists (default_metadata t m). rewrite lookup_alter_eq, Hm. split; [done|].
  rewrite !default_metadata_lookup.
  destruct (m !! "_recieved_at"), (m !! "_source"); by eauto.
Qed.

(** The loop on dicts that are alive: whatever is in the queue after it
    carries both metadata keys, if what was in it before did; and a dict
    that carried them still does. *)
Lemma ingest_loop_tagged (evs : list pyobj) (acc : Z) (w : World) :
  (forall l, l ∈ locs_of evs -> l ∈ dom (heap w)) ->
  (forall l, l ∈ items (queue w) -> tagged (heap w) l) ->
  (forall l, l ∈ items (queue (snd (ingest_loop clock evs acc w))) ->
             tagged (heap (snd (ingest_loop clock evs acc w))) l) /\
  (forall l, tagged (heap w) l ->
             tagged (heap (snd (ingest_loop clock evs acc w))) l).
Proof.
  revert acc w. induction evs as [|[l|v] evs IH]; intros acc w Hdom Hq;
    [done| |done].
  cbn [ingest_loop now_z heap queue ticks].
  assert (forall x, x ∈ locs_of evs ->
            x ∈ dom (alter (default_metadata (clock (ticks w))) l (heap w))) as Hdom'.
  { intros x Hx. rewrite dom_alter_L. apply Hdom. by apply list_elem_of_further. }
  destruct (full (queue w)) eqn:F.
  - rewrite (put_nowait_full _ _ F). cbn [snd heap queue].
    split; intros x Hx; apply tagged_alter; by auto.
  - rewrite (put_nowait_not_full _ _ F).
    destruct (IH (acc + 1)
                {| heap := alter (default_metadata (clock (ticks w))) l (heap w);
                   queue := enqueued [l] (queue w); ticks := S (ticks w) |})
      as [H1 H2]; [done| |].
    + cbn [heap queue enqueued items]. intros x Hx.
      apply elem_of_app in Hx as [Hx|Hx].
      * apply tagged_alter. by auto.
      * apply list_elem_of_singleton in Hx as ->. apply tagged_new, Hdom.
        by apply list_elem_of_here.
    + split; [done|]. intros x Hx. apply H2. by apply tagged_alter.
Qed.

(** What a request does: the queue keeps what it held and gets some events
    after it; a dict that was alive before the request is what it was; and
    if every event in the queue carried both metadata keys, so does every
    event in the queue now. *)
Lemma post_events_effect (j : json) (w : World) :
  (exists ls, queue (snd (post_events clock j w)) = enqueued ls (queue w)) /\
  (forall l, l ∈ dom (heap w) ->
             heap (snd (post_events clock j w)) !! l = heap w !! l) /\
  ((forall l, l ∈ items (queue w) -> tagged (heap w) l) ->
   forall l, l ∈ items (queue (snd (post_events clock j w))) ->
             tagged (heap (snd (post_events clock j w))) l).
Proof.
  unfold post_events. destruct (decode j (heap w)) as [body h] eqn:E.
  destruct (decode_spec _ _ _ _ E) as [Hkeep Hnew].
  destruct (ingest_events_state body {| heap := h; queue := queue w; ticks := ticks w |})
    as [-> ->].
  split; [|split].
  - destruct (ingest_loop_appends clock (elements_of body) 0
                {| heap := h; queue := queue w; ticks := ticks w |})
      as (ls & _ & Hq & _). by exists ls.
  - intros l Hl.
    destruct (ingest_loop_heap clock (elements_of body) 0
                {| heap := h; queue := queue w; ticks := ticks w |}) as [_ Ho].
    rewrite Ho; [by apply Hkeep|]. intros Hin. by apply Hnew in Hin as [Hin _].
  - intros Hq.
    apply (ingest_loop_tagged (elements_of body) 0
             {| heap := h; queue := queue w; ticks := ticks w |}).
    + intros l Hl. by apply Hnew.
    + cbn [heap queue]. intros l Hl. destruct (Hq l Hl) as (m & Hm & Hk).
      exists m. split; [|done]. rewrite Hkeep; [done|].
      apply elem_of_dom. by eauto.
Qed.

(** X6: A request leaves alone what was there before it: a dict that was alive
    is what it was, key by key, and the queue still starts with the events
    it held, in their order. *)
Theorem request_keeps_earlier_events (j : json) (w : World) (l : loc) :
  l ∈ dom (heap w) ->
  heap (snd (post_events clock j w)) !! l = heap w !! l /\
  items (queue w) `prefix_of` items (queue (snd (post_events clock j w))).
Proof.
  intros Hl. destruct (post_events_effect j w) as ((ls & Hq) & Hkeep & _).
  split; [by apply Hkeep|]. rewrite Hq. by exists ls.
Qed.

(** ** The service with its consumers *)

Lemma held_insert (p : list consumer_state) (i : nat) (c c' : consumer_state) :
  p !! i = Some c ->
  Z.of_nat (length (held (<[i := c']> p)))
  = Z.of_nat (length (held p)) - weight c + weight c'.
Proof.
  revert i. induction p as [|x p IH]; intros i H; [done|].
  destruct i as [|i]; simpl in H.
  - inversion H; subst. destruct c, c'; simpl; lia.
  - specialize (IH i H). destruct x; simpl in *; lia.
Qed.

Lemma held_bound (p : list consumer_state) : (length (held p) <= length p)%nat.
Proof. induction p as [|[|e|] p IH]; simpl; lia. Qed.

Lemma crashed_insert (p : list consumer_state) (i : nat) (c' : consumer_state) :
  Crashed ∉ p -> c' <> Crashed -> Crashed ∉ <[i := c']> p.
Proof.
  revert i. induction p as [|x p IH]; intros i Hp Hc; [done|].
  apply not_elem_of_cons in Hp as [Hx Hp].
  destruct i as [|i]; simpl; apply not_elem_of_cons; split; auto.
Qed.

(** One step keeps the books of the queue and no consumer ends. *)
Lemma service_do_balanced (st : step) (s : Service) :
  unfinished_tasks (queue (world s))
  = qsize (queue (world s)) + Z.of_nat (length (held (pool s))) ->
  Crashed ∉ pool s ->
  let s' := service_do clock st s in
  unfinished_tasks (queue (world s'))
  = qsize (queue (world s')) + Z.of_nat (length (held (pool s'))) /\
  (Crashed ∉ pool s') /\
  length (pool s') = length (pool s).
Proof.
  intros Hb Hc. destruct st as [j|i]; cbn [service_do].
  - cbn [world pool].
    destruct (post_events_effect j (world s)) as ((ls & ->) & _).
    rewrite qsize_enqueued. simpl. split; [lia|done].
  - destruct (pool s !! i) as [[|e|]|] eqn:Hi; [| |done|done].
    + unfold consumer_get, get.
      destruct (items (queue (world s))) as [|x rest] eqn:Hit; [done|].
      cbn [world pool queue]. rewrite (held_insert _ _ _ _ Hi).
      unfold qsize in *. rewrite Hit in Hb. simpl in *.
      split; [lia|]. split; [by apply crashed_insert|by rewrite length_insert].
    + unfold consumer_done, task_done.
      pose proof (held_insert _ _ _ Waiting Hi) as Hw. simpl in Hw.
      assert (0 <= qsize (queue (world s))) by (unfold qsize; lia).
      assert (0 <= Z.of_nat (length (held (<[i := Waiting]> (pool s))))) by lia.
      destruct (unfinished_tasks (queue (world s)) <=? 0) eqn:E.
      * apply Z.leb_le in E. lia.
      * cbn [world pool queue unfinished_tasks]. unfold qsize in *. simpl.
        split; [lia|]. split; [by apply crashed_insert|by rewrite length_insert].
Qed.

(** X7: However the requests and the consumers take turns after the start of
    the service, the queue's count of pending completions is the number of
    events in the queue plus the number of events the consumers hold; so
    [task_done] never raises, no consumer ends, and at most four events are
    out of the queue and not yet marked done. *)
Theorem consumers_keep_the_books (sts : list step) :
  let s := service_run clock sts (started initial) in
  unfinished_tasks (queue (world s))
  = qsize (queue (world s)) + Z.of_nat (length (held (pool s))) /\
  (Crashed ∉ pool s) /\
  length (pool s) = 4%nat /\
  (length (held (pool s)) <= 4)%nat.
Proof.
  assert (forall s0,
            unfinished_tasks (queue (world s0))
            = qsize (queue (world s0)) + Z.of_nat (length (held (pool s0))) ->
            Crashed ∉ pool s0 ->
            let s := service_run clock sts s0 in
            unfinished_tasks (queue (world s))
            = qsize (queue (world s)) + Z.of_nat (length (held (pool s))) /\
            (Crashed ∉ pool s) /\ length (pool s) = length (pool s0)) as Hrun.
  { unfold service_run. induction sts as [|st sts IH]; intros s0 Hb Hc; [done|].
    cbn [fold_left].
    destruct (service_do_balanced st s0 Hb Hc) as (Hb' & Hc' & Hl').
    destruct (IH _ Hb' Hc') as (? & ? & Hl). rewrite Hl' in Hl. done. }
  destruct (Hrun (started initial)) as (Hb & Hc & Hl).
  - done.
  - simpl. rewrite !not_elem_of_cons. repeat split; try done. apply not_elem_of_nil.
  - split; [done|]. split; [done|]. split; [done|].
    pose proof (held_bound (pool (service_run clock sts (started initial)))). 
    simpl in Hl. lia.
Qed.

(** X8: Nothing is lost and nothing comes twice or out of order: the events the
    queue held at the start followed by those that entered it are, in that
    order, the events the consumers took followed by those still in the
    queue. *)
Theorem events_leave_in_order (sts : list step) (w : World) :
  let s := service_run clock sts (started w) in
  items (queue w) ++ arrived s = taken s ++ items (queue (world s)).
Proof.
  assert (forall s0 base,
            base ++ arrived s0 = taken s0 ++ items (queue (world s0)) ->
            let s := service_run clock sts s0 in
            base ++ arrived s = taken s ++ items (queue (world s))) as Hrun.
  { unfold service_run. induction sts as [|st sts IH]; intros s0 base H; [done|].
    cbn [fold_left]. apply IH. destruct st as [j|i]; cbn [service_do].
    - cbn [world arrived taken]. unfold appended.
      destruct (post_events_effect j (world s0)) as ((ls & ->) & _).
      cbn [enqueued items]. rewrite drop_app_length.
      by rewrite !app_assoc, H.
    - destruct (pool s0 !! i) as [[|e|]|] eqn:Hi; [| |done|done].
      + unfold consumer_get, get.
        destruct (items (queue (world s0))) as [|x rest] eqn:Hit;
          [by rewrite Hit|].
        cbn [world arrived taken queue items]. rewrite H.
        by rewrite <- app_assoc.
      + unfold consumer_done, task_done.
        by destruct (unfinished_tasks (queue (world s0)) <=? 0). }
  apply (Hrun (started w)). simpl. by rewrite app_nil_r.
Qed.

(** X9: Every event a consumer gets, and every event that waits in the queue,
    carries both metadata keys, however the requests and the consumers take
    turns after the start of the service. *)
Theorem consumers_see_tagged_events (sts : list step) (l : loc) :
  let s := service_run clock sts (started initial) in
  l ∈ items (queue (world s)) \/ l ∈ taken s ->
  tagged (heap (world s)) l.
Proof.
  assert (forall s0,
            (forall x, x ∈ items (queue (world s0)) \/ x ∈ taken s0 ->
                       tagged (heap (world s0)) x) ->
            let s := service_run clock sts s0 in
            forall x, x ∈ items (queue (world s)) \/ x ∈ taken s ->
                      tagged (heap (world s)) x) as Hrun.
  { unfold service_run. induction sts as [|st sts IH]; intros s0 H; [done|].
    cbn [fold_left]. apply IH. destruct st as [j|i]; cbn [service_do].
    - cbn [world taken]. intros x [Hx|Hx].
      + destruct (post_events_effect j (world s0)) as (_ & _ & Htag).
        apply Htag; [|done]. intros y Hy. apply H. by left.
      + destruct (H x (or_intror Hx)) as (m & Hm & Hk).
        destruct (post_events_effect j (world s0)) as (_ & Hkeep & _).
        exists m. split; [|done]. rewrite Hkeep; [done|].
        apply elem_of_dom. by eauto.
    - destruct (pool s0 !! i) as [[|e|]|] eqn:Hi; [| |done|done].
      + unfold consumer_get, get.
        destruct (items (queue (world s0))) as [|y rest] eqn:Hit.
        { intros x [Hx|Hx]; [|apply H; by right].
          rewrite Hit in Hx. by apply elem_of_nil in Hx. }
        cbn [world taken queue items heap]. intros x [Hx|Hx].
        * apply H. left. by apply list_elem_of_further.
        * apply elem_of_app in Hx as [Hx|Hx]; [apply H; by right|].
          apply list_elem_of_singleton in Hx as ->. apply H. left.
          apply list_elem_of_here.
      + unfold consumer_done, task_done.
        destruct (unfinished_tasks (queue (world s0)) <=? 0); [done|].
        cbn [world taken queue items heap]. done. }
  apply (Hrun (started initial)). simpl. intros x [Hx|Hx]; by apply elem_of_nil in Hx.
Qed.

End Wire.

Lemma request_keeps_earlier_events_witness :
  2%positive ∈ dom (heap one_slot_left) /\
  heap (snd (post_events clock_text (JArr [JObj []; JNum 1]) one_slot_left))
    !! 2%positive = heap one_slot_left !! 2%positive.
Proof.
  assert (2%positive ∈ dom (heap one_slot_left)) as H.
  { apply elem_of_dom. eexists. reflexivity. }
  split; [exact H|].
  exact (proj1 (request_keeps_earlier_events clock_text (JArr [JObj []; JNum 1])
                  one_slot_left 2%positive H)).
Defined.

Lemma consumers_see_tagged_events_witness :
  tagged (heap (world (service_run clock_text
                         [Request (JObj [("n"%string, JNum 1)]); Turn 0]
                         (started initial)))) 1%positive.
Proof.
  apply (consumers_see_tagged_events clock_text
           [Request (JObj [("n"%string, JNum 1)]); Turn 0] 1%positive).
  right. vm_compute. apply list_elem_of_here.
Defined.

(** ** Events that come with their metadata *)

Lemma default_metadata_tagged (t : string) (m : gmap string json) :
  is_Some (m !! "_recieved_at") -> is_Some (m !! "_source") ->
  default_metadata t m = m.
Proof.
  intros [r Hr] [s Hs]. unfold default_metadata, setdefault. by rewrite Hr, Hs.
Qed.

Lemma stamp_tagged (clock : nat -> string) (ls : list loc) (t0 : nat)
    (h : gmap loc (gmap string json)) :
  (forall l, l ∈ ls -> tagged h l) -> stamp clock t0 ls h = h.
Proof.
  revert t0. induction ls as [|l ls IH]; intros t0 H; [done|].
  cbn [stamp].
  assert (alter (default_metadata (clock t0)) l h = h) as ->.
  { destruct (H l (list_elem_of_here _ _)) as (m & Hm & Hr & Hs).
    apply alter_id. intros m' Hm'. rewrite Hm in Hm'. inversion Hm'; subst m'.
    by apply default_metadata_tagged. }
  apply IH. intros x Hx. apply H. by apply list_elem_of_further.
Qed.

(** X5: Events that carry both metadata keys when they arrive are stored as
    they are: the request changes no dict at all, whether the events are
    accepted or not. *)
Theorem tagged_events_stay_as_sent (clock : nat -> string) (body : pybody)
    (ls : list loc) (w : World) :
  events_of body = Some ls ->
  (forall l, l ∈ ls -> tagged (heap w) l) ->
  heap (snd (ingest_events clock (Decoded body) w)) = heap w.
Proof.
  intros He Ht. rewrite (ingest_events_wellformed clock _ _ _ He). cbn [snd heap].
  apply stamp_tagged. intros l Hl. apply Ht.
  by apply (subseteq_take (Nat.min (length ls) (S (room (queue w) (length ls)))) ls).
Qed.

Lemma tagged_events_witness :
  events_of (BDict 1%positive) = Some [1%positive] /\
  heap (snd (ingest_events clock_text (Decoded (BDict 1%positive))
               with_caller_metadata))
  = heap with_caller_metadata.
Proof.
  split; [reflexivity|].
  apply (tagged_events_stay_as_sent clock_text (BDict 1%positive) [1%positive]
           with_caller_metadata eq_refl).
  intros l Hl. apply list_elem_of_singleton in Hl. subst l.
  eexists. split; [reflexivity|]. split; eexists; reflexivity.
Defined.

End ServiceFacts.

(** * Further properties of the load generator *)

Module GeneratorMore.
Import Generator GeneratorFacts.

(** ** The rate of a worker *)

Lemma float_of_int_raises (n : Z) (e : exn) :
  float_of_int n = Raise e -> e = OverflowError.
Proof.
  unfold float_of_int.
  destruct (binary_normalize prec emax n 0 false); intros H; by inversion H.
Qed.

(** The quotient of a float that is not above zero by a positive finite
    float is not above zero. *)
Lemma div_nonpos_not_pos (x : float) (m : positive) (e : Z) :
  flt fzero x = false ->
  flt fzero (SFdiv prec emax x (S754_finite false m e)) = false.
Proof.
  intros Hx. destruct x as [s|s| |s mx ex]; try done.
  - by destruct s.
  - destruct s; [|done]. cbn [SFdiv].
    destruct (SFdiv_core_binary prec emax (Z.pos mx) ex (Z.pos m) e) as [[mz ez] lz].
    pose proof (binary_round_aux_sign (xorb true false) mz ez lz) as Hs.
    destruct (binary_round_aux prec emax (xorb true false) mz ez lz); try done;
      simpl in Hs; by subst.
Qed.

(** X10: The rate that [run] hands to its workers is never below zero, and the
    division that computes it raises nothing but the [OverflowError] of a
    concurrency too large for a float: it never divides by zero, whatever
    the concurrency. *)
Theorem per_worker_rps_not_negative (R : float) (C : Z) :
  per_worker_rps R C = Raise OverflowError \/
  exists r, per_worker_rps R C = Ok r /\ flt r fzero = false.
Proof.
  unfold per_worker_rps.
  destruct (float_of_int (Z.max C 1)) as [c|e] eqn:Hc.
  - right. destruct (float_of_int_pos (Z.max C 1) c) as (m & e & ->); [lia|done|].
    cbn [truediv is_zero]. eexists. split; [done|]. unfold pymax.
    by destruct (flt (SFdiv prec emax R (S754_finite false m e)) fzero) eqn:E.
  - left. by rewrite (float_of_int_raises _ _ Hc).
Qed.

(** X11: An aggregate rate that is not above zero (zero, negative or not a
    number) gives every worker the interval zero: the worker does not pace
    itself. *)
Theorem no_rate_no_interval (R : float) (C : Z) (r : float) :
  flt fzero R = false ->
  per_worker_rps R C = Ok r ->
  interval_of r = Ok fzero.
Proof.
  intros HR. unfold per_worker_rps.
  destruct (float_of_int (Z.max C 1)) as [c|e] eqn:Hc; [|done].
  destruct (float_of_int_pos (Z.max C 1) c) as (m & e & ->); [lia|done|].
  cbn [truediv is_zero]. intros H. inversion H; subst r. unfold interval_of, pymax.
  pose proof (div_nonpos_not_pos R m e HR) as Hq.
  destruct (flt (SFdiv prec emax R (S754_finite false m e)) fzero); [done|].
  by rewrite Hq.
Qed.

Lemma no_rate_no_interval_witness :
  flt fzero (S754_finite true 4503599627370496 (-50)) = false /\
  exists r, per_worker_rps (S754_finite true 4503599627370496 (-50)) 4 = Ok r /\
            interval_of r = Ok fzero.
Proof.
  split; [reflexivity|]. eexists. split; [reflexivity|].
  exact (no_rate_no_interval (S754_finite true 4503599627370496 (-50)) 4 _
           eq_refl eq_refl).
Defined.

(** X12: The workers [run] starts have the names [w0], [w1], ..., all different,
    and each gets the url, the duration, the payload source, the batch size
    and the jitter that [run] was given. *)
Theorem run_tasks_names_and_arguments (u : string) (R D : float) (C : Z)
    (src : option string) (B J : Z) (tasks : list Args) :
  run_tasks u R D C src B J = Ok tasks ->
  NoDup (map name tasks) /\
  map name tasks = map worker_name (seq 0 (Z.to_nat C)) /\
  (forall t, t ∈ tasks ->
     url t = u /\ duration t = D /\ payload_src t = src /\
     batch t = B /\ jitter_ms t = J).
Proof.
  unfold run_tasks. destruct (per_worker_rps R C) as [r|e]; [|done].
  intros H. inversion H; subst tasks. clear H.
  assert (map name
            (map (fun i => {| name := worker_name i; url := u; rps := r;
                              duration := D; payload_src := src; batch := B;
                              jitter_ms := J |}) (seq 0 (Z.to_nat C)))
          = map worker_name (seq 0 (Z.to_nat C))) as Hn.
  { rewrite map_map. done. }
  split; [|split; [done|]].
  - rewrite Hn.
    assert (Inj (=) (=) worker_name) as Hinj.
    { intros i j Hij. unfold worker_name in Hij.
      apply (inj pretty). by simplify_eq. }
    apply (NoDup_fmap_2 worker_name), NoDup_seq.
  - intros t Ht. apply list_elem_of_fmap in Ht as (i & -> & _). done.
Qed.

Lemma run_tasks_names_witness :
  map name
    (match run_tasks "u" fone fzero 3 None 1 50 with Ok ts => ts | Raise _ => [] end)
  = ["w0"; "w1"; "w2"]%string.
Proof.
  destruct (run_tasks "u" fone fzero 3 None 1 50) as [ts|e] eqn:E; [|discriminate E].
  rewrite (proj1 (proj2 (run_tasks_names_and_arguments "u" fone fzero 3 None 1 50 ts E))).
  reflexivity.
Defined.

(** ** Small ints as floats *)

Lemma digits2_pos_iter_xO (p k : positive) :
  digits2_pos (Pos.iter xO p k) = (digits2_pos p + k)%positive.
Proof.
  induction k as [|k IH] using Pos.peano_ind.
  - simpl. lia.
  - rewrite Pos.iter_succ. simpl. rewrite IH. lia.
Qed.

Lemma digits2_pos_upper (p : positive) (k : Z) :
  0 <= k -> Z.pos p < 2 ^ k -> Z.pos (digits2_pos p) <= k.
Proof.
  intros Hk Hp. pose proof (digits2_pos_lower p) as Hlow.
  destruct (Z.le_gt_cases (Z.pos (digits2_pos p)) k) as [|Hgt]; [done|].
  assert (2 ^ k <= 2 ^ (Z.pos (digits2_pos p) - 1)) by (apply Z.pow_le_mono_r; lia).
  lia.
Qed.

(** A mantissa of 53 digits with an exponent between -52 and 0 is kept as it
    is. *)
Lemma binary_round_aux_exact (mz : positive) (ez : Z) :
  Z.pos (digits2_pos mz) = 53 -> -52 <= ez <= 0 ->
  binary_round_aux prec emax false (Z.pos mz) ez loc_Exact
  = S754_finite false mz ez.
Proof.
  intros Hd He.
  assert (shr_fexp prec emax (Z.pos mz) ez loc_Exact
          = ({| shr_m := Z.pos mz; shr_r := false; shr_s := false |}, ez)) as Hshr.
  { unfold shr_fexp, shr, fexp, SpecFloat.emin, prec, emax. simpl Zdigits2.
    rewrite Hd.
    replace (Z.max (53 + ez - 53) (3 - 1024 - 53) - ez) with 0 by lia. done. }
  unfold binary_round_aux. rewrite Hshr. cbn [shr_m loc_of_shr_record round_nearest_even].
  rewrite Hshr. cbn [shr_m]. unfold prec, emax.
  by replace (ez <=? 1024 - 53) with true by (symmetry; apply Z.leb_le; lia).
Qed.

(** An int from 0 to [2^53 - 1] converts to a float without an exception. *)
Lemma float_of_int_small (n : Z) :
  0 <= n < 2 ^ 53 -> exists f, float_of_int n = Ok f.
Proof.
  intros [Hn0 Hn]. destruct n as [|p|p]; [by eexists| |lia].
  unfold float_of_int. cbn [binary_normalize]. unfold binary_round.
  pose proof (digits2_pos_upper p 53 ltac:(lia) Hn) as Hd.
  assert (fexp prec emax (Z.pos (digits2_pos p) + 0) = Z.pos (digits2_pos p) - 53) as ->.
  { unfold fexp, SpecFloat.emin, prec, emax. lia. }
  unfold shl_align.
  destruct (Z.pos (digits2_pos p) - 53 - 0) as [|k|k] eqn:Ek; [| lia |].
  - rewrite binary_round_aux_exact by lia. by eexists.
  - rewrite binary_round_aux_exact; [by eexists| |lia].
    rewrite digits2_pos_iter_xO. lia.
Qed.

(** ** The turn of the loop, part by part *)

Section Parts.

Variable load_payload : option string -> nat -> pyresult json.
Variable transport : nat -> string -> json -> option string.
Variable randint : nat -> Z -> Z -> Z.

(** Loading touches nothing but the count of loads. *)
Lemma load_many_frame (src : option string) (n : nat) (env : Env) :
  let env' := snd (load_many load_payload src n env) in
  reads env' = reads env /\ draws env' = draws env /\ posts env' = posts env /\
  printed env' = printed env /\ sleeps env' = sleeps env.
Proof.
  revert env. induction n as [|n IH]; intros env; [done|].
  cbn [load_many]. unfold bind, call_load_payload.
  destruct (load_payload src (loads env)); [|done].
  specialize (IH (loaded env)).
  destruct (load_many load_payload src n (loaded env)) as [[xs|e] env']; exact IH.
Qed.

Lemma build_data_frame (a : Args) (env : Env) :
  let env' := snd (build_data load_payload a env) in
  reads env' = reads env /\ draws env' = draws env /\ posts env' = posts env /\
  printed env' = printed env /\ sleeps env' = sleeps env.
Proof.
  unfold build_data, bind, call_load_payload.
  destruct (load_payload (payload_src a) (loads env)); [|done].
  destruct (1 <? batch a); [|done].
  pose proof (load_many_frame (payload_src a) (Z.to_nat (batch a)) (loaded env)) as H.
  destruct (load_many load_payload (payload_src a) (Z.to_nat (batch a)) (loaded env))
    as [[xs|e] env']; exact H.
Qed.

(** The pause touches nothing but the draws and the sleeps. *)
Lemma pace_frame (a : Args) (interval : float) (env : Env) :
  let env' := snd (pace randint a interval env) in
  reads env' = reads env /\ loads env' = loads env /\ posts env' = posts env /\
  printed env' = printed env.
Proof.
  pace_cases interval a.
  destruct (float_of_int (randint (draws env) 0 (jitter_ms a))) as [rf|e]; [|done].
  by destruct (truediv rf f1000).
Qed.

Lemma iteration_reads (a : Args) (interval : float) (sent : Z) (env : Env) :
  reads (snd (iteration load_payload transport randint a interval sent env))
  = reads env.
Proof.
  pose proof (build_data_frame a env) as (Hr & _).
  destruct (build_data load_payload a env) as [[data|e] env1] eqn:Hb.
  - rewrite (iteration_after_build _ _ _ _ _ _ _ _ _ Hb).
    destruct (pace_frame a interval (posted data env1)) as (Hp & _).
    destruct (transport (length (posts env1)) (url a) data); cbn [snd logged reads];
      rewrite Hp; exact Hr.
  - unfold iteration, bind. rewrite Hb. exact Hr.
Qed.

(** X13: An exception of the provider is the end of the turn and of the loop:
    the turn posts nothing and prints nothing, and the worker ends with that
    exception; the [try] of lines 83-87 does not reach line 78 or 81. *)
Theorem provider_error_ends_worker (monotonic : nat -> float) (a : Args)
    (interval end_t : float) (sent : Z) (env env1 : Env) (e : exn) (fuel : nat) :
  flt (monotonic (reads env)) end_t = true ->
  build_data load_payload a (read_clock env) = (Raise e, env1) ->
  worker_loop monotonic load_payload transport randint (S fuel) a interval end_t
    sent env = (Raise e, env1) /\
  posts env1 = posts env /\ printed env1 = printed env /\ sleeps env1 = sleeps env.
Proof.
  intros Ht Hb.
  pose proof (build_data_frame a (read_clock env)) as (_ & _ & Hp & Hpr & Hs).
  rewrite Hb in Hp, Hpr, Hs. cbn [snd] in Hp, Hpr, Hs.
  split; [|by split].
  cbn [worker_loop]. unfold bind at 1. unfold time_monotonic. rewrite Ht.
  unfold bind at 1. unfold iteration. unfold bind at 1. by rewrite Hb.
Qed.

(** X14: A batch size of zero or less: the turn still loads one payload and posts
    it as it is, and the count it returns is [sent + batch], which is not
    above [sent]. *)
Theorem nonpositive_batch_posts_one (a : Args) (p : nat -> json)
    (interval : float) (sent : Z) (env : Env) :
  batch a <= 0 ->
  (forall k, load_payload (payload_src a) k = Ok (p k)) ->
  let r := iteration load_payload transport randint a interval sent env in
  posts (snd r) = posts env ++ [p (loads env)] /\
  loads (snd r) = S (loads env) /\
  (forall s, fst r = Ok s -> s = sent + batch a /\ s <= sent).
Proof.
  intros HB Hp r. subst r.
  assert (build_data load_payload a env = (Ok (p (loads env)), loaded env)) as Hb.
  { rewrite (build_data_ok _ _ p) by done.
    by replace (1 <? batch a) with false by (symmetry; apply Z.ltb_ge; lia). }
  rewrite (iteration_after_build _ _ _ _ _ _ _ _ _ Hb).
  destruct (pace_frame a interval (posted (p (loads env)) (loaded env)))
    as (_ & Hl & Hpo & _).
  assert (forall s,
            match fst (pace randint a interval (posted (p (loads env)) (loaded env)))
            with Ok _ => Ok (sent + batch a) | Raise e => Raise e end = Ok s ->
            s = sent + batch a /\ s <= sent) as Hs.
  { intros s H.
    destruct (fst (pace randint a interval (posted (p (loads env)) (loaded env))));
      inversion H. lia. }
  destruct (transport (length (posts (loaded env))) (url a) (p (loads env)));
    cbn [fst snd logged posts loads]; rewrite Hl, Hpo; done.
Qed.

(** ** The pause *)

Lemma flt_zero_asym (x : float) : flt fzero x = true -> flt x fzero = false.
Proof. destruct x as [s|s| |s m e]; try done; by destruct s. Qed.

Lemma fadd_zero_r (x : float) : flt fzero x = true -> fadd x fzero = x.
Proof. destruct x as [s|s| |s m e]; try done; by destruct s. Qed.

(** X15: The pause of a turn that does not raise is one sleep, never of a
    duration below zero: of zero, without a draw, when there is no interval;
    of the interval itself, without a draw, when there is no jitter; and
    after one draw when there is both. *)
Theorem pause_is_one_sleep (a : Args) (interval : float) (env : Env) :
  fst (pace randint a interval env) = Ok tt ->
  exists d,
    sleeps (snd (pace randint a interval env)) = sleeps env ++ [d] /\
    flt d fzero = false /\
    (flt fzero interval = false ->
     d = fzero /\ draws (snd (pace randint a interval env)) = draws env) /\
    (flt fzero interval = true -> jitter_ms a <= 0 ->
     d = interval /\ draws (snd (pace randint a interval env)) = draws env) /\
    (flt fzero interval = true -> 0 < jitter_ms a ->
     draws (snd (pace randint a interval env)) = S (draws env)).
Proof.
  assert (forall x, flt (pymax fzero x) fzero = false) as Hmax.
  { intros x. unfold pymax. destruct (flt fzero x) eqn:E; [|done].
    by apply flt_zero_asym. }
  unfold pace, bind, lift, ret, random_randint, asyncio_sleep.
  destruct (flt fzero interval) eqn:Hi.
  - destruct (0 <? jitter_ms a) eqn:Hj.
    + destruct (float_of_int (randint (draws env) 0 (jitter_ms a))) as [rf|e]; [|done].
      destruct (truediv rf f1000) as [j|e]; [|done].
      intros _. eexists. split; [done|]. split; [apply Hmax|].
      apply Z.ltb_lt in Hj. split; [done|]. split; [lia|done].
    + intros _. eexists. split; [done|]. split; [apply Hmax|].
      apply Z.ltb_ge in Hj. split; [done|]. split; [|lia].
      intros _ _. rewrite (fadd_zero_r _ Hi). unfold pymax. by rewrite Hi.
  - intros _. exists fzero. split; [done|]. split; [done|]. by split.
Qed.

(** X16: A jitter bound below [2^53] and draws within [0, jitter_ms], as
    [random.randint] gives them: the pause raises nothing. *)
Theorem pause_never_raises (a : Args) (interval : float) (env : Env) :
  jitter_ms a < 2 ^ 53 ->
  (forall k, 0 <= randint k 0 (jitter_ms a) <= jitter_ms a) ->
  fst (pace randint a interval env) = Ok tt.
Proof.
  intros HJ Hr. apply pace_ok. intros k. apply float_of_int_small.
  specialize (Hr k). lia.
Qed.

End Parts.

(** ** A run with a deadline *)

Section Deadline.

Variable monotonic : nat -> float.
Variable load_payload : option string -> nat -> pyresult json.
Variable transport : nat -> string -> json -> option string.
Variable randint : nat -> Z -> Z -> Z.

(** When the clock is below the deadline at the next [k] tests of the loop
    and not below it at the one after, the loop makes [k] turns and
    returns. *)
Lemma worker_loop_deadline (k fuel : nat) (a : Args) (interval end_t : float)
    (sent : Z) (env : Env) :
  (k < fuel)%nat ->
  (forall j, (j < k)%nat -> flt (monotonic (reads env + j)) end_t = true) ->
  flt (monotonic (reads env + k)) end_t = false ->
  (forall i, exists p, load_payload (payload_src a) i = Ok p) ->
  (forall i, exists f, float_of_int (randint i 0 (jitter_ms a)) = Ok f) ->
  exists env',
    worker_loop monotonic load_payload transport randint fuel a interval end_t sent env
    = (Ok (Returned (sent + Z.of_nat k * batch a)), env') /\
    length (posts env') = (length (posts env) + k)%nat /\
    reads env' = (reads env + k + 1)%nat.
Proof.
  intros Hfuel Hbelow Hpast Hp Hj.
  revert fuel sent env Hfuel Hbelow Hpast.
  induction k as [|k IH]; intros fuel sent env Hfuel Hbelow Hpast;
    (destruct fuel as [|fuel]; [lia|]);
    cbn [worker_loop]; unfold bind at 1; unfold time_monotonic.
  - rewrite Nat.add_0_r in Hpast. rewrite Hpast. unfold ret.
    exists (read_clock env). split.
    + by replace (sent + Z.of_nat 0 * batch a) with sent by lia.
    + simpl. lia.
  - pose proof (Hbelow 0%nat ltac:(lia)) as H0. rewrite Nat.add_0_r in H0.
    rewrite H0. unfold bind.
    destruct (iteration_runs load_payload transport randint a interval sent
                (read_clock env) Hp Hj) as (env1 & Hit & Hlen).
    pose proof (iteration_reads load_payload transport randint a interval sent
                  (read_clock env)) as Hr.
    rewrite Hit in Hr |- *. cbn [snd read_clock reads] in Hr.
    destruct (IH fuel (sent + batch a) env1) as (env' & Hrun & Hl' & Hr').
    + lia.
    + intros j Hjk. rewrite Hr.
      replace (S (reads env) + j)%nat with (reads env + S j)%nat by lia.
      apply Hbelow. lia.
    + rewrite Hr. by replace (S (reads env) + k)%nat with (reads env + S k)%nat by lia.
    + exists env'. rewrite Hrun. split; [|split].
      * by replace (sent + Z.of_nat (S k) * batch a)
          with (sent + batch a + Z.of_nat k * batch a) by lia.
      * rewrite Hl', Hlen. simpl. lia.
      * rewrite Hr', Hr. lia.
Qed.

(** X17: A worker with a duration above zero reads the clock once for its
    deadline, the start plus the duration; when the clock is below the
    deadline at the first [k] tests of the loop and not below it at the next
    one, and no collaborator raises, the worker returns [k * batch] after
    [k] requests and [k + 2] readings of the clock. *)
Theorem worker_returns_at_deadline (a : Args) (env : Env) (k fuel : nat) :
  flt fzero (duration a) = true ->
  (forall j, (j < k)%nat ->
     flt (monotonic (S (reads env) + j))
       (fadd (monotonic (reads env)) (duration a)) = true) ->
  flt (monotonic (S (reads env) + k))
    (fadd (monotonic (reads env)) (duration a)) = false ->
  (forall i, exists p, load_payload (payload_src a) i = Ok p) ->
  (forall i, exists f, float_of_int (randint i 0 (jitter_ms a)) = Ok f) ->
  (k < fuel)%nat ->
  exists env',
    worker monotonic load_payload transport randint fuel a env
    = (Ok (Returned (Z.of_nat k * batch a)), env') /\
    length (posts env') = (length (posts env) + k)%nat /\
    reads env' = (reads env + k + 2)%nat.
Proof.
  intros Hd Hbelow Hpast Hp Hj Hfuel.
  destruct (interval_of_ok (rps a)) as [i Hi].
  unfold worker, bind, lift. rewrite Hi. unfold end_time. rewrite Hd.
  unfold bind, time_monotonic, ret.
  destruct (worker_loop_deadline k fuel a i
              (fadd (monotonic (reads env)) (duration a)) 0 (read_clock env))
    as (env' & Hrun & Hl & Hr); try done.
  exists env'. rewrite Hrun. split; [done|]. split; [done|].
  rewrite Hr. simpl. lia.
Qed.

End Deadline.

(** ** What an unbounded run posts *)

Section Posts.

Variable monotonic : nat -> float.
Variable load_payload : option string -> nat -> pyresult json.
Variable transport : nat -> string -> json -> option string.
Variable randint : nat -> Z -> Z -> Z.

Hypothesis clock_finite : forall k, is_finite (monotonic k) = true.

Lemma worker_loop_posts_payloads (fuel : nat) (a : Args) (p : nat -> json)
    (interval : float) (sent : Z) (env : Env) :
  batch a <= 1 ->
  (forall k, load_payload (payload_src a) k = Ok (p k)) ->
  (forall k, exists f, float_of_int (randint k 0 (jitter_ms a)) = Ok f) ->
  exists env',
    worker_loop monotonic load_payload transport randint fuel a interval finf sent env
    = (Ok (Running (sent + Z.of_nat fuel * batch a)), env') /\
    posts env' = posts env ++ map p (seq (loads env) fuel) /\
    loads env' = (loads env + fuel)%nat.
Proof.
  intros HB Hp Hj. revert sent env. induction fuel as [|fuel IH]; intros sent env.
  - exists env. cbn [worker_loop seq map]. unfold ret. rewrite app_nil_r.
    split; [|split; [done|lia]].
    by replace (sent + Z.of_nat 0 * batch a) with sent by lia.
  - cbn [worker_loop]. unfold bind at 1. unfold time_monotonic.
    rewrite (finite_below_inf _ (clock_finite _)). unfold bind.
    assert (build_data load_payload a (read_clock env)
            = (Ok (p (loads env)), loaded (read_clock env))) as Hb.
    { rewrite (build_data_ok _ _ p) by done.
      by replace (1 <? batch a) with false by (symmetry; apply Z.ltb_ge; lia). }
    rewrite (iteration_after_build _ _ _ _ _ _ _ _ _ Hb).
    pose proof (pace_ok randint a interval
                  (posted (p (loads env)) (loaded (read_clock env))) Hj) as Hok.
    destruct (pace_frame randint a interval
                (posted (p (loads env)) (loaded (read_clock env))))
      as (_ & Hl & Hpo & _).
    rewrite Hok.
    set (env1 := snd (pace randint a interval
                        (posted (p (loads env)) (loaded (read_clock env))))) in *.
    assert (forall env2, posts env2 = posts env1 -> loads env2 = loads env1 ->
              exists env',
                worker_loop monotonic load_payload transport randint fuel a interval
                  finf (sent + batch a) env2
                = (Ok (Running (sent + Z.of_nat (S fuel) * batch a)), env') /\
                posts env' = posts env ++ map p (seq (loads env) (S fuel)) /\
                loads env' = (loads env + S fuel)%nat) as Hnext.
    { intros env2 Hp2 Hl2.
      destruct (IH (sent + batch a) env2) as (env' & Hrun & Hpo' & Hl').
      exists env'. rewrite Hrun, Hpo', Hl', Hp2, Hl2, Hpo, Hl.
      cbn [posted loaded read_clock posts loads seq map].
      split; [|split; [by rewrite <- app_assoc|lia]].
      by replace (sent + Z.of_nat (S fuel) * batch a)
        with (sent + batch a + Z.of_nat fuel * batch a) by lia. }
    destruct (transport (length (posts (loaded (read_clock env)))) (url a)
                (p (loads env))); by apply Hnext.
Qed.

(** X18: A run without a deadline, a batch size of at most one and collaborators
    that do not raise: after any number of turns the worker has not
    returned, and the requests it has posted are the payloads of the
    provider, one for each turn, in the order they were loaded, none left
    out and none sent twice. *)
Theorem unbounded_run_posts_every_payload (a : Args) (p : nat -> json)
    (env : Env) (fuel : nat) :
  SFleb (duration a) fzero = true ->
  batch a <= 1 ->
  (forall k, load_payload (payload_src a) k = Ok (p k)) ->
  (forall k, exists f, float_of_int (randint k 0 (jitter_ms a)) = Ok f) ->
  exists env',
    worker monotonic load_payload transport randint fuel a env
    = (Ok (Running (Z.of_nat fuel * batch a)), env') /\
    posts env' = posts env ++ map p (seq (loads env) fuel) /\
    loads env' = (loads env + fuel)%nat.
Proof.
  intros Hd HB Hp Hj. destruct (interval_of_ok (rps a)) as [i Hi].
  unfold worker, bind, lift. rewrite Hi. unfold end_time.
  rewrite (not_positive _ Hd). unfold ret.
  apply (worker_loop_posts_payloads fuel a p i 0 env HB Hp Hj).
Qed.

End Posts.

Lemma provider_error_witness :
  flt (still (reads env0)) finf = true /\
  build_data missing (args_of 2 fzero)
    (read_clock env0) = (Raise (PayloadError "not found"), loaded (read_clock env0)) /\
  worker_loop still missing timing_out upper 1
    (args_of 2 fzero) fone finf 0 env0
  = (Raise (PayloadError "not found"), loaded (read_clock env0)).
Proof.
  split; [reflexivity|]. split; [reflexivity|].
  exact (proj1 (provider_error_ends_worker missing timing_out upper
                  still (args_of 2 fzero) fone finf 0 env0 _ _ 0 eq_refl eq_refl)).
Defined.

Lemma nonpositive_batch_witness :
  batch (args_of 0 fzero) <= 0 /\
  posts (snd (iteration numbered answering upper (args_of 0 fzero) fone 7 env0))
  = posts env0 ++ [JNum (Z.of_nat (loads env0))].
Proof.
  assert (batch (args_of 0 fzero) <= 0) as H by (vm_compute; discriminate).
  split; [exact H|].
  exact (proj1 (nonpositive_batch_posts_one numbered answering upper (args_of 0 fzero)
                  (fun k => JNum (Z.of_nat k)) fone 7 env0 H (fun k => eq_refl))).
Defined.

Lemma pause_is_one_sleep_witness :
  fst (pace upper (args_of 1 fzero) fone env0) = Ok tt /\
  exists d, sleeps (snd (pace upper (args_of 1 fzero) fone env0)) = sleeps env0 ++ [d] /\
            flt d fzero = false.
Proof.
  split; [reflexivity|].
  destruct (pause_is_one_sleep upper (args_of 1 fzero) fone env0 eq_refl)
    as [d [Hs [Hd _]]].
  exists d. split; [exact Hs|exact Hd].
Defined.

Lemma pause_never_raises_witness :
  jitter_ms (args_of 1 fzero) < 2 ^ 53 /\
  (forall k, 0 <= upper k 0 (jitter_ms (args_of 1 fzero)) <= jitter_ms (args_of 1 fzero)) /\
  fst (pace upper (args_of 1 fzero) fone env0) = Ok tt.
Proof.
  assert (jitter_ms (args_of 1 fzero) < 2 ^ 53) as H1 by (vm_compute; reflexivity).
  assert (forall k, 0 <= upper k 0 (jitter_ms (args_of 1 fzero))
                    <= jitter_ms (args_of 1 fzero)) as H2.
  { intros k. vm_compute. split; discriminate. }
  split; [exact H1|]. split; [exact H2|].
  exact (pause_never_raises upper (args_of 1 fzero) fone env0 H1 H2).
Defined.

Lemma worker_returns_at_deadline_witness :
  exists env',
    worker ticking
      numbered answering upper 5 (args_of 1 (S754_finite false 5629499534213120 (-51)))
      env0
    = (Ok (Returned (Z.of_nat 2 * 1)), env') /\
    length (posts env') = 2%nat.
Proof.
  destruct (worker_returns_at_deadline ticking
              numbered answering upper
              (args_of 1 (S754_finite false 5629499534213120 (-51))) env0 2 5)
    as (env' & Hrun & Hl & _).
  - reflexivity.
  - intros j Hj. destruct j as [|[|j]]; [reflexivity|reflexivity|lia].
  - reflexivity.
  - intros i. eexists. reflexivity.
  - intros i. eexists. reflexivity.
  - lia.
  - exists env'. split; [exact Hrun|exact Hl].
Defined.

Lemma unbounded_run_posts_witness :
  exists env',
    worker still numbered timing_out upper 3 (args_of 1 fzero) env0
    = (Ok (Running (Z.of_nat 3 * 1)), env') /\
    posts env' = [JNum 0; JNum 1; JNum 2].
Proof.
  destruct (unbounded_run_posts_every_payload still numbered timing_out upper
              (fun k => eq_refl) (args_of 1 fzero) (fun k => JNum (Z.of_nat k)) env0 3)
    as (env' & Hrun & Hposts & _).
  - reflexivity.
  - vm_compute. discriminate.
  - reflexivity.
  - intros k. eexists. reflexivity.
  - exists env'. split; [exact Hrun|exact Hposts].
Defined.

End GeneratorMore.

(** * Properties of the payload provider *)

Module PayloadFacts.
Import Generator GeneratorFacts GeneratorMore Payload.

Section Provider.

Variable L : Library.

(** The search by what [exists] answers: the loop comes to its [else] when
    every candidate is there to be asked and is absent, and it stops at a
    candidate when that one exists and all before it are absent. *)
Lemma first_existing_Nowhere (cands : list (path L)) :
  first_existing L cands = Nowhere <->
  forall c, c ∈ cands -> path_exists L c = Some false.
Proof.
  induction cands as [|c cands IH]; simpl.
  - split; [|done]. intros _ c Hc. by apply elem_of_nil in Hc.
  - destruct (path_exists L c) as [[|]|] eqn:E.
    + split; [done|]. intros H. specialize (H c (list_elem_of_here _ _)). congruence.
    + rewrite IH. split.
      * intros H x Hx. apply elem_of_cons in Hx as [->|Hx]; auto.
      * intros H x Hx. apply H. by apply list_elem_of_further.
    + split; [done|]. intros H. specialize (H c (list_elem_of_here _ _)). congruence.
Qed.

Lemma first_existing_Found (cands : list (path L)) (p : path L) :
  first_existing L cands = Found p <->
  exists before after,
    cands = before ++ p :: after /\
    (forall c, c ∈ before -> path_exists L c = Some false) /\
    path_exists L p = Some true.
Proof.
  split.
  - induction cands as [|c cands IH]; simpl; [done|].
    destruct (path_exists L c) as [[|]|] eqn:E; [| |done].
    + intros H. inversion H; subst. exists [], cands. split; [done|].
      split; [|done]. intros x Hx. by apply elem_of_nil in Hx.
    + intros H. destruct (IH H) as (before & after & -> & Hb & Hp).
      exists (c :: before), after. split; [done|]. split; [|done].
      intros x Hx. apply elem_of_cons in Hx as [->|Hx]; auto.
  - intros (before & after & -> & Hb & Hp).
    induction before as [|c before IH]; simpl.
    + by rewrite Hp.
    + rewrite (Hb c (list_elem_of_here _ _)). apply IH.
      intros x Hx. apply Hb. by apply list_elem_of_further.
Qed.

Lemma load_file_error (p : path L) (k : nat) (e : load_error) :
  load_file L p k = Failed e ->
  (forall msg, e <> FileNotFoundError msg) /\
  ((exists msg, e = ValueError msg) <->
   path_suffix L p <> ".json" /\ path_suffix L p <> ".j2").
Proof.
  unfold load_file.
  destruct (decide (path_suffix L p = ".json")) as [Hj|Hj].
  - destruct (read_text L p) as [text|]; [destruct (json_loads L text)|];
      intros H; inversion H; subst;
      (split; [done|]; split; [intros [? ?]; done|intros [? _]; done]).
  - destruct (decide (path_suffix L p = ".j2")) as [Ht|Ht].
    + destruct (read_text L p) as [text|];
        [destruct (render L k text) as [r|]; [destruct (json_loads L r)|]|];
        intros H; inversion H; subst;
        (split; [done|]; split; [intros [? ?]; done|intros [_ ?]; done]).
    + intros H; inversion H; subst. split; [done|]. split; [done|by eauto].
Qed.

(** X19: [load_payload] raises [FileNotFoundError] exactly when the source is
    not empty, is not JSON text, and [exists] answers no, without raising,
    for each of the three candidates: the path as given, the path beside the
    script, the file name beside the script; and the message of that
    exception names the source and the three candidates. *)
Theorem file_not_found_iff (source : option string) (k : nat) :
  ((exists msg, load_payload L source k = Failed (FileNotFoundError msg)) <->
   (exists src, source = Some src /\ src <> "" /\ json_loads L src = None /\
                path_exists L (Path L src) = Some false /\
                path_exists L (beside_script L (Path L src)) = Some false /\
                path_exists L (beside_script L (Path L (path_name L (Path L src))))
                = Some false)) /\
  (forall msg, load_payload L source k = Failed (FileNotFoundError msg) ->
               exists src, source = Some src /\ msg = not_found L src).
Proof.
  unfold load_payload. split; [split|].
  - intros [msg H]. destruct source as [src|]; [|done].
    destruct (decide (src = "")) as [|Hne]; [done|].
    destruct (json_loads L src) as [j|] eqn:Ej; [done|].
    destruct (first_existing L (candidates L src)) as [p| |] eqn:Ef; [| |done].
    + by destruct (proj1 (load_file_error p k _ H) msg).
    + exists src. pose proof (proj1 (first_existing_Nowhere _) Ef) as Hn.
      repeat split; try done; apply Hn; unfold candidates;
        rewrite !elem_of_cons; by auto.
  - intros (src & -> & Hne & Hj & H1 & H2 & H3).
    rewrite decide_False, Hj by done. unfold candidates. cbn [first_existing].
    rewrite H1, H2, H3. by eauto.
  - intros msg H. destruct source as [src|]; [|done].
    destruct (decide (src = "")) as [|Hne]; [done|].
    destruct (json_loads L src) as [j|] eqn:Ej; [done|].
    destruct (first_existing L (candidates L src)) as [p| |] eqn:Ef; [| |done].
    + by destruct (proj1 (load_file_error p k _ H) msg).
    + inversion H. by eauto.
Qed.

(** X20: [load_payload] raises the [ValueError] of an unsupported file type
    exactly when the source is not empty, is not JSON text, and among the
    three candidates in their order there is one for which [exists] answers
    yes, after [exists] has answered no, without raising, for every
    candidate before it, and the suffix of that one is neither [.json] nor
    [.j2]; the candidates after it are not tried. *)
Theorem unsupported_type_iff (source : option string) (k : nat) :
  (exists msg, load_payload L source k = Failed (ValueError msg)) <->
  (exists src before p after,
     source = Some src /\ src <> "" /\ json_loads L src = None /\
     candidates L src = before ++ p :: after /\
     (forall c, c ∈ before -> path_exists L c = Some false) /\
     path_exists L p = Some true /\
     path_suffix L p <> ".json" /\ path_suffix L p <> ".j2").
Proof.
  unfold load_payload. split.
  - intros [msg H]. destruct source as [src|]; [|done].
    destruct (decide (src = "")) as [|Hne]; [done|].
    destruct (json_loads L src) as [j|] eqn:Ej; [done|].
    destruct (first_existing L (candidates L src)) as [p| |] eqn:Ef; [|done|done].
    apply first_existing_Found in Ef as (before & after & Hc & Hb & Hp).
    exists src, before, p, after. do 6 (split; [done|]).
    apply (load_file_error p k _ H). by eauto.
  - intros (src & before & p & after & -> & Hne & Hj & Hc & Hb & Hp & Hs1 & Hs2).
    rewrite decide_False, Hj by done.
    rewrite (proj2 (first_existing_Found _ p)) by by eauto.
    unfold load_file. rewrite !decide_False by done. by eauto.
Qed.

(** An [exists] that raises is the end of the call: the candidates after it
    are not tried and no [FileNotFoundError] is made of it. *)
Lemma exists_error_propagates (src : string) (k : nat) :
  src <> "" -> json_loads L src = None ->
  path_exists L (Path L src) = None ->
  load_payload L (Some src) k = Failed OSError.
Proof.
  intros Hne Hj He. unfold load_payload. rewrite decide_False, Hj by done.
  unfold candidates. cbn [first_existing]. by rewrite He.
Qed.

(** With no source, with an empty one, or with a source that is JSON text,
    [load_payload] reads no file and raises nothing: it gives the default
    object of the call, or the JSON value of the text, whatever it is. *)
Theorem loads_without_files (source : option string) (k : nat) :
  (source = None \/ source = Some "" ->
   load_payload L source k = Loaded (default_payload L k)) /\
  (forall src j, source = Some src -> src <> "" -> json_loads L src = Some j ->
                 load_payload L source k = Loaded j).
Proof.
  unfold load_payload. split.
  - by intros [-> | ->].
  - intros src j -> Hne Hj. by rewrite decide_False, Hj.
Qed.

End Provider.

Lemma file_not_found_witness :
  exists msg, load_payload bare (Some "events.json") 0 = Failed (FileNotFoundError msg).
Proof.
  apply (proj2 (proj1 (file_not_found_iff bare (Some "events.json") 0))).
  exists "events.json"%string. repeat split; discriminate.
Defined.

Lemma unsupported_type_witness :
  exists msg, load_payload with_notes (Some "notes.txt") 0 = Failed (ValueError msg).
Proof.
  apply (proj2 (unsupported_type_iff with_notes (Some "notes.txt") 0)).
  exists "notes.txt"%string, ["notes.txt"%string], "generator/notes.txt"%string,
    ["generator/notes.txt"%string].
  split; [reflexivity|]. split; [discriminate|]. split; [reflexivity|].
  split; [reflexivity|]. split.
  - intros c Hc. apply list_elem_of_singleton in Hc. subst c. reflexivity.
  - split; [reflexivity|]. split; discriminate.
Defined.

(** X21: A run without a payload source, without a deadline and with the batch
    size 1, on a clock that gives finite readings and with a jitter below
    [2^53] whose draws are within their bounds: the provider never raises,
    and after any number of turns the worker has posted one default
    [page_view] object for each turn and has not returned. *)
Theorem default_run_posts_page_views (L : Library)
    (monotonic : nat -> float)
    (transport : nat -> string -> json -> option string)
    (randint : nat -> Z -> Z -> Z) (a : Args) (env : Env) (fuel : nat) :
  payload_src a = None -> batch a = 1 ->
  SFleb (duration a) fzero = true ->
  (forall k, is_finite (monotonic k) = true) ->
  jitter_ms a < 2 ^ 53 ->
  (forall k, 0 <= randint k 0 (jitter_ms a) <= jitter_ms a) ->
  exists env',
    worker monotonic (provider L) transport randint fuel a env
    = (Ok (Running (Z.of_nat fuel)), env') /\
    posts env' = posts env ++ map (default_payload L) (seq (loads env) fuel).
Proof.
  intros Hsrc HB Hd Hclock HJ Hr.
  destruct (interval_of_ok (rps a)) as [i Hi].
  unfold worker, bind, lift. rewrite Hi. unfold end_time.
  rewrite (not_positive _ Hd). unfold ret.
  destruct (worker_loop_posts_payloads monotonic (provider L) transport randint
              Hclock fuel a (default_payload L) i 0 env)
    as (env' & Hrun & Hposts & _).
  - lia.
  - intros k. by rewrite Hsrc.
  - intros k. apply float_of_int_small. specialize (Hr k). lia.
  - exists env'. rewrite Hrun, HB. split; [|done]. do 3 f_equal. lia.
Qed.

Lemma default_run_witness :
  exists env',
    worker still (provider bare) timing_out upper 2 (args_of 1 fzero) env0
    = (Ok (Running (Z.of_nat 2)), env') /\
    posts env' = posts env0 ++ map (default_payload bare) (seq (loads env0) 2).
Proof.
  apply (default_run_posts_page_views bare still timing_out upper (args_of 1 fzero)
           env0 2).
  - reflexivity.
  - reflexivity.
  - reflexivity.
  - reflexivity.
  - vm_compute. reflexivity.
  - intros k. vm_compute. split; discriminate.
Defined.

End PayloadFacts.
